(** * Micheline binary encoder ([taquito-michel-codec/src/binary.ts])

    A shallow embedding of [emitBinary] and of the helpers it is built from
    (the primitive table, the [Writer] byte sink and the recursive
    [encodeBinary]), together with the part of the JavaScript run time the
    encoder calls ([BigInt], [parseInt], [TextEncoder], [Array.join], the
    [| 0] and [& 0xff] coercions, property lookup on a plain object).

    Conventions.
    - A JavaScript string is the list of its UTF-16 code units ([jsstring]).
    - A JavaScript number that the encoder manipulates is either an integer
      or [NaN] ([number]); no fraction and no infinity ever arises.
    - A [BigInt] is a [Z]; the magnitude the varint loop consumes is an [N].
    - [encodeBinary] mutates the [Writer] it is given: here it takes the
      writer and returns the updated one, or the exception it throws. *)

From Equations Require Import Equations.
From stdpp Require Import base numbers list gmap.
From Stdlib Require Import ZArith NArith Lia DecimalPos.
From Stdlib Require String Ascii.
Import String.StringSyntax.
Delimit Scope string_scope with string.

Local Open Scope Z_scope.

(** ** The JavaScript run time used by the encoder *)

Module JS.

(** UTF-16 code units; every unit of a real string is below [2^16]. *)
Definition jsstring : Type := list N.

(** A string literal of the source, as code units (ASCII only). *)
Definition lit (s : String.string) : jsstring :=
  List.map Ascii.N_of_ascii (String.list_ascii_of_string s).
Arguments lit s%_string.

(** Numbers: the integers and [NaN]. *)
Inductive number : Type :=
| NaN
| Num (z : Z).

(** The values a property lookup on [primTags] can produce. *)
Inductive value : Type :=
| VUndefined
| VNumber (z : Z)
| VObject.

(** [ToNumber]: a function or a plain object converts to [NaN] (its
    primitive value is a string that is not a numeric literal). *)
Definition ToNumber (v : value) : number :=
  match v with
  | VNumber z => Num z
  | VUndefined | VObject => NaN
  end.

(** [ToInt32], the coercion behind [val | 0], [>>] and [&]. *)
Definition ToInt32 (x : number) : Z :=
  match x with
  | NaN => 0
  | Num z =>
      let m := z mod 2 ^ 32 in
      if m <? 2 ^ 31 then m else m - 2 ^ 32
  end.

(** [x & y] on numbers. *)
Definition band (x y : number) : Z := Z.land (ToInt32 x) (ToInt32 y).

(** [x >> k] for a 32-bit integer [x] (sign-propagating). *)
Definition sar (x : Z) (k : Z) : Z := Z.shiftr x (Z.land k 31).

(** *** Exceptions and the result of a call *)

Inductive exn : Type :=
| TypeError (prim : jsstring)   (* "Can't encode primary: <prim>" *)
| SyntaxError (text : jsstring) (* thrown by BigInt on a malformed text *).

Inductive result (A : Type) : Type :=
| Ok (a : A)
| Throw (e : exn).
Arguments Ok {A} a.
Arguments Throw {A} e.

Definition bind {A B} (m : result A) (k : A -> result B) : result B :=
  match m with
  | Ok a => k a
  | Throw e => Throw e
  end.

(** [for (const v of l) f(v, s)] with [s] a mutable object. *)
Definition for_of {A S} (f : A -> S -> result S) : list A -> S -> result S :=
  fix loop (l : list A) (s : S) : result S :=
    match l with
    | [] => Ok s
    | v :: l' => bind (f v s) (loop l')
    end.

(** *** Character classes *)

(** [StrWhiteSpaceChar]: [WhiteSpace] and [LineTerminator]. *)
Definition isWhiteSpace (c : N) : bool :=
  ((9 <=? c) && (c <=? 13) || (c =? 0x20) || (c =? 0xA0) || (c =? 0x1680)
   || (0x2000 <=? c) && (c <=? 0x200A) || (c =? 0x2028) || (c =? 0x2029)
   || (c =? 0x202F) || (c =? 0x205F) || (c =? 0x3000) || (c =? 0xFEFF))%N.

(** The value of a digit in bases up to 36, [None] for any other unit. *)
Definition digitValue (c : N) : option N :=
  (if (0x30 <=? c) && (c <=? 0x39) then Some (c - 0x30)
   else if (0x41 <=? c) && (c <=? 0x5A) then Some (c - 0x41 + 10)
   else if (0x61 <=? c) && (c <=? 0x7A) then Some (c - 0x61 + 10)
   else None)%N.

Definition radixDigit (R : N) (c : N) : option N :=
  match digitValue c with
  | Some d => if (d <? R)%N then Some d else None
  | None => None
  end.

Fixpoint trimStart (s : jsstring) : jsstring :=
  match s with
  | c :: s' => if isWhiteSpace c then trimStart s' else s
  | [] => []
  end.

Definition trim (s : jsstring) : jsstring :=
  rev (trimStart (rev (trimStart s))).

(** The longest prefix of radix-[R] digits of [s], as digit values. *)
Fixpoint digitPrefix (R : N) (s : jsstring) : list N :=
  match s with
  | c :: s' =>
      match radixDigit R c with
      | Some d => d :: digitPrefix R s'
      | None => []
      end
  | [] => []
  end.

(** All of [s] as radix-[R] digits, when every unit is one. *)
Fixpoint allDigits (R : N) (s : jsstring) : option (list N) :=
  match s with
  | c :: s' =>
      match radixDigit R c, allDigits R s' with
      | Some d, Some ds => Some (d :: ds)
      | _, _ => None
      end
  | [] => Some []
  end.

(** The number denoted by a list of digits, most significant first. *)
Definition digitsValue (R : N) (ds : list N) : Z :=
  fold_left (fun acc d => acc * Z.of_N R + Z.of_N d) ds 0.

(** *** [parseInt(s, 16)] *)
Definition stripHexPrefix (s : jsstring) : jsstring :=
  match s with
  | 0x30%N :: x :: s' => if ((x =? 0x78) || (x =? 0x58))%N then s' else s
  | _ => s
  end.

Definition parseInt16 (s : jsstring) : number :=
  let t := trimStart s in
  let '(sign, t) :=
    match t with
    | 0x2D%N :: t' => (-1, t')
    | 0x2B%N :: t' => (1, t')
    | _ => (1, t)
    end in
  let t := stripHexPrefix t in
  match digitPrefix 16 t with
  | [] => NaN
  | ds => Num (sign * digitsValue 16 ds)
  end.

(** *** [BigInt(s)] on a string: [StringToBigInt], or a [SyntaxError] *)
Definition nonDecimalRadix (x : N) : option N :=
  (if (x =? 0x62) || (x =? 0x42) then Some 2
   else if (x =? 0x6F) || (x =? 0x4F) then Some 8
   else if (x =? 0x78) || (x =? 0x58) then Some 16
   else None)%N.

Definition nonEmptyDigits (R : N) (s : jsstring) : option Z :=
  match s with
  | [] => None
  | _ => digitsValue R <$> allDigits R s
  end.

Definition StringToBigInt (s : jsstring) : option Z :=
  match trim s with
  | [] => Some 0
  | 0x2D%N :: t => Z.opp <$> nonEmptyDigits 10 t
  | 0x2B%N :: t => nonEmptyDigits 10 t
  | 0x30%N :: x :: t =>
      match nonDecimalRadix x with
      | Some R => nonEmptyDigits R t
      | None => nonEmptyDigits 10 (0x30%N :: x :: t)
      end
  | t => nonEmptyDigits 10 t
  end.

Definition BigInt (s : jsstring) : result Z :=
  match StringToBigInt s with
  | Some z => Ok z
  | None => Throw (SyntaxError s)
  end.

(** *** [new TextEncoder().encode(s)]: UTF-8 of the code points of [s] *)

Definition isLead (c : N) : bool := ((0xD800 <=? c) && (c <? 0xDC00))%N.
Definition isTrail (c : N) : bool := ((0xDC00 <=? c) && (c <? 0xE000))%N.

(** Surrogate pairs are combined, a lone surrogate becomes U+FFFD. *)
Fixpoint codePoints (s : jsstring) : list N :=
  match s with
  | [] => []
  | c :: s' =>
      if isLead c then
        match s' with
        | d :: s'' =>
            if isTrail d
            then (0x10000 + N.shiftl (c - 0xD800) 10 + (d - 0xDC00))%N :: codePoints s''
            else 0xFFFD%N :: codePoints s'
        | [] => [0xFFFD%N]
        end
      else if isTrail c then 0xFFFD%N :: codePoints s'
      else c :: codePoints s'
  end.

Definition utf8CodePoint (cp : N) : list N :=
  (if cp <? 0x80 then [cp]
   else if cp <? 0x800 then
     [N.lor 0xC0 (N.shiftr cp 6); N.lor 0x80 (N.land cp 0x3F)]
   else if cp <? 0x10000 then
     [N.lor 0xE0 (N.shiftr cp 12);
      N.lor 0x80 (N.land (N.shiftr cp 6) 0x3F);
      N.lor 0x80 (N.land cp 0x3F)]
   else
     [N.lor 0xF0 (N.land (N.shiftr cp 18) 0x07);
      N.lor 0x80 (N.land (N.shiftr cp 12) 0x3F);
      N.lor 0x80 (N.land (N.shiftr cp 6) 0x3F);
      N.lor 0x80 (N.land cp 0x3F)])%N.

(** The bytes of the [Uint8Array], as numbers ([Array.from]). *)
Definition TextEncoder_encode (s : jsstring) : list Z :=
  List.map Z.of_N (List.concat (List.map utf8CodePoint (codePoints s))).

(** *** [l.join(" ")] *)
Fixpoint join {A} (sep : list A) (l : list (list A)) : list A :=
  match l with
  | [] => []
  | [s] => s
  | s :: l' => s ++ sep ++ join sep l'
  end.

(** *** The own and inherited properties of a plain object *)

(** The property names of [Object.prototype]. *)
Definition ObjectPrototype : list jsstring :=
  List.map lit
    ["constructor"; "__defineGetter__"; "__defineSetter__"; "hasOwnProperty";
     "__lookupGetter__"; "__lookupSetter__"; "isPrototypeOf";
     "propertyIsEnumerable"; "toString"; "valueOf"; "__proto__";
     "toLocaleString"]%string.

(** [o[key]] for an object [o] created by a literal, with own
    (numeric) properties [own]. *)
Definition get (own : gmap jsstring Z) (key : jsstring) : value :=
  match own !! key with
  | Some i => VNumber i
  | None => if bool_decide (key ∈ ObjectPrototype) then VObject else VUndefined
  end.

End JS.

Export JS.
Arguments lit s%_string.

Declare Scope js_scope.
Delimit Scope js_scope with js.
Notation "'let*' x ':=' m 'in' k" := (bind m (fun x => k))
  (at level 10, x name, m at level 100, k at level 200) : js_scope.
Local Open Scope js_scope.

(** ** The primitive table *)

Definition primitives : list jsstring :=
  List.map lit
  ["parameter"; "storage"; "code"; "False"; "Elt"; "Left"; "None"; "Pair";
   "Right"; "Some"; "True"; "Unit"; "PACK"; "UNPACK"; "BLAKE2B"; "SHA256"; "SHA512"; "ABS"; "ADD";
   "AMOUNT"; "AND"; "BALANCE"; "CAR"; "CDR"; "CHECK_SIGNATURE"; "COMPARE"; "CONCAT"; "CONS";
   "CREATE_ACCOUNT"; "CREATE_CONTRACT"; "IMPLICIT_ACCOUNT"; "DIP"; "DROP"; "DUP"; "EDIV"; "EMPTY_MAP";
   "EMPTY_SET"; "EQ"; "EXEC"; "FAILWITH"; "GE"; "GET"; "GT"; "HASH_KEY"; "IF"; "IF_CONS"; "IF_LEFT";
   "IF_NONE"; "INT"; "LAMBDA"; "LE"; "LEFT"; "LOOP"; "LSL"; "LSR"; "LT"; "MAP"; "MEM"; "MUL"; "NEG";
   "NEQ"; "NIL"; "NONE"; "NOT"; "NOW"; "OR"; "PAIR"; "PUSH"; "RIGHT"; "SIZE"; "SOME"; "SOURCE";
   "SENDER"; "SELF"; "STEPS_TO_QUOTA"; "SUB"; "SWAP"; "TRANSFER_TOKENS"; "SET_DELEGATE"; "UNIT";
   "UPDATE"; "XOR"; "ITER"; "LOOP_LEFT"; "ADDRESS"; "CONTRACT"; "ISNAT"; "CAST"; "RENAME"; "bool";
   "contract"; "int"; "key"; "key_hash"; "lambda"; "list"; "map"; "big_map"; "nat"; "option"; "or";
   "pair"; "set"; "signature"; "string"; "bytes"; "mutez"; "timestamp"; "unit"; "operation";
   "address"; "SLICE"; "DIG"; "DUG"; "EMPTY_BIG_MAP"; "APPLY"; "chain_id"; "CHAIN_ID"; "LEVEL";
   "SELF_ADDRESS"; "never"; "NEVER"; "UNPAIR"; "VOTING_POWER"; "TOTAL_VOTING_POWER"; "KECCAK";
   "SHA3"; "PAIRING_CHECK"; "bls12_381_g1"; "bls12_381_g2"; "bls12_381_fr"; "sapling_state";
   "sapling_transaction"; "SAPLING_EMPTY_STATE"; "SAPLING_VERIFY_UPDATE"; "ticket"; "TICKET";
   "READ_TICKET"; "SPLIT_TICKET"; "JOIN_TICKETS"; "GET_AND_UPDATE"]%string.

(** [Object.assign({}, ...primitives.map((v, i) => ({ [v]: i })))]: the
    one-property objects are merged left to right, a later one overwriting
    an earlier one with the same key. *)
Definition assign (o : gmap jsstring Z) (src : jsstring * Z) : gmap jsstring Z :=
  <[src.1 := src.2]> o.

Definition primTags : gmap jsstring Z :=
  fold_left assign (imap (fun i v => (v, Z.of_nat i)) primitives) ∅.

(** [primTags[name]] *)
Definition primTag (name : jsstring) : value := get primTags name.

(** ** Tags *)

Module Tag.
Definition Int : Z := 0.
Definition String : Z := 1.
Definition Sequence : Z := 2.
Definition Prim0 : Z := 3.
Definition Prim0Annot : Z := 4.
Definition Prim1 : Z := 5.
Definition Prim1Annot : Z := 6.
Definition Prim2 : Z := 7.
Definition Prim2Annot : Z := 8.
Definition Prim : Z := 9.
Definition Bytes : Z := 10.
End Tag.

(** ** The byte sink *)

Record Writer : Type := mkWriter { buffer : list Z }.

Module Wr.

(** [new Writer()] *)
Definition new : Writer := mkWriter [].

(** [get length()] *)
Definition length (wr : Writer) : number :=
  Num (Z.of_nat (List.length (buffer wr))).

(** [this.buffer.push(x)] *)
Definition push (x : Z) (wr : Writer) : Writer :=
  mkWriter (buffer wr ++ [x]).

Definition writeBytes (val : list number) (wr : Writer) : Writer :=
  mkWriter (buffer wr ++ List.map (fun v => band v (Num 0xff)) val).

Definition writeUint8 (val : number) (wr : Writer) : Writer :=
  let v := Z.lor (ToInt32 val) 0 in
  push (Z.land v 0xff) wr.

Definition writeUint16 (val : number) (wr : Writer) : Writer :=
  let v := Z.lor (ToInt32 val) 0 in
  let wr := push (Z.land (sar v 8) 0xff) wr in
  push (Z.land v 0xff) wr.

Definition writeUint32 (val : number) (wr : Writer) : Writer :=
  let v := Z.lor (ToInt32 val) 0 in
  let wr := push (Z.land (sar v 24) 0xff) wr in
  let wr := push (Z.land (sar v 16) 0xff) wr in
  let wr := push (Z.land (sar v 8) 0xff) wr in
  push (Z.land v 0xff) wr.

Definition writeInt8 (val : number) (wr : Writer) : Writer := writeUint8 val wr.
Definition writeInt16 (val : number) (wr : Writer) : Writer := writeUint16 val wr.
Definition writeInt32 (val : number) (wr : Writer) : Writer := writeUint32 val wr.

End Wr.

(** ** Expressions *)

(** Modelled from the spec: the type [Expr] of [./micheline], of which the
    file only has the import.  The five node variants of the data model,
    under the field names the encoder reads: [expr.int], [expr.string],
    [expr.bytes], an array, and [expr.prim] with the optional [expr.args]
    and [expr.annots] ([None] is an absent field). *)
#[warnings="-register-all"]
Inductive Expr : Type :=
| IntLiteral (int : jsstring)
| StringLiteral (string : jsstring)
| BytesLiteral (bytes : jsstring)
| Sequence (items : list Expr)
| Prim (prim : jsstring) (args : option (list Expr))
       (annots : option (list jsstring)).

(** ** The encoder *)

(** The [do { ... } while (val)] loop of the [int] case; [val] is the
    magnitude, [i] the number of bytes written so far. *)
Equations? encodeInt (i : Z) (val : N) (sign : bool) (wr : Writer) : Writer
  by wf (N.to_nat (N.log2 val)) lt :=
  encodeInt i val sign wr :=
    let bits := if i =? 0 then 6%N else 7%N in
    let byte := N.land val (N.shiftl 1 bits - 1) in
    let val' := N.shiftr val bits in
    let byte := if negb (val' =? 0)%N then N.lor byte 0x80 else byte in
    let byte := if (i =? 0) && sign then N.lor byte 0x40 else byte in
    let wr := Wr.writeUint8 (Num (Z.of_N byte)) wr in
    let i := i + 1 in
    match N.eq_dec val' 0 with
    | left _ => wr
    | right _ => encodeInt i val' sign wr
    end.
Proof.
  assert (Hbits : (0 < bits)%N) by (subst bits; destruct (_ =? 0); reflexivity).
  clearbody bits. subst val'. rewrite N.log2_shiftr.
  destruct (N.le_gt_cases bits (N.log2 val)) as [Hle|Hgt].
  - lia.
  - exfalso. apply n. now apply N.shiftr_eq_0.
Qed.

(** The [for (i = 0; i < s.length; i += 2) s.slice(i, i + 2)] slices. *)
Fixpoint slices2 (s : jsstring) : list jsstring :=
  match s with
  | [] => []
  | [a] => [[a]]
  | a :: b :: s' => [a; b] :: slices2 s'
  end.

(** The array branch, over the encoder [enc] of the elements. *)
Definition encodeSequence (enc : Expr -> Writer -> result Writer)
    (expr : list Expr) (wr : Writer) : result Writer :=
  let w := Wr.new in
  let* w := for_of enc expr w in
  let wr := Wr.writeUint8 (Num Tag.Sequence) wr in
  let wr := Wr.writeUint32 (Wr.length w) wr in
  let wr := Wr.writeBytes (List.map Num (buffer w)) wr in
  Ok wr.

(** [expr.args?.length || 0] *)
Definition argsLength (args : option (list Expr)) : Z :=
  match args with
  | Some a => Z.of_nat (length a)
  | None => 0
  end.

(** [expr.args?.length || 0 < 3], which is [expr.args?.length || (0 < 3)],
    as the condition of [? :]. *)
Definition arityTest (args : option (list Expr)) : bool :=
  match args with
  | Some a => if negb (Z.of_nat (length a) =? 0) then true else 0 <? 3
  | None => 0 <? 3
  end.

(** [expr.annots === undefined || expr.annots.length === 0 ? 0 : 1] *)
Definition annotBit (annots : option (list jsstring)) : Z :=
  match annots with
  | None => 0
  | Some a => if Z.of_nat (length a) =? 0 then 0 else 1
  end.

Definition primTagOf (args : option (list Expr))
    (annots : option (list jsstring)) : Z :=
  if arityTest args
  then Tag.Prim0 + argsLength args * 2 + annotBit annots
  else Tag.Prim.

(** The annotation block, written when [expr.annots] is present and not
    empty. *)
Definition encodeAnnots (annots : option (list jsstring)) (wr : Writer) : Writer :=
  match annots with
  | Some a =>
      if negb (Z.of_nat (length a) =? 0) then
        let bytes := TextEncoder_encode (join (lit " ") a) in
        let wr := Wr.writeUint32 (Num (Z.of_nat (length bytes))) wr in
        Wr.writeBytes (List.map Num bytes) wr
      else wr
  | None => wr
  end.

Fixpoint encodeBinary (expr : Expr) (wr : Writer) {struct expr} : result Writer :=
  match expr with
  | Sequence items => encodeSequence encodeBinary items wr
  | StringLiteral str =>
      let bytes := TextEncoder_encode str in
      let wr := Wr.writeUint8 (Num Tag.String) wr in
      let wr := Wr.writeUint32 (Num (Z.of_nat (length bytes))) wr in
      Ok (Wr.writeBytes (List.map Num bytes) wr)
  | IntLiteral int =>
      let wr := Wr.writeUint8 (Num Tag.Int) wr in
      let* val := BigInt int in
      let sign := val <? 0 in
      let val := if sign then - val else val in
      Ok (encodeInt 0 (Z.to_N val) sign wr)
  | BytesLiteral hex =>
      let bytes := List.map parseInt16 (slices2 hex) in
      let wr := Wr.writeUint8 (Num Tag.Bytes) wr in
      let wr := Wr.writeUint32 (Num (Z.of_nat (length bytes))) wr in
      Ok (Wr.writeBytes bytes wr)
  | Prim name args annots =>
      let prim := primTag name in
      match prim with
      | VUndefined => Throw (TypeError name)
      | _ =>
          let tag := primTagOf args annots in
          let wr := Wr.writeUint8 (Num tag) wr in
          let wr := Wr.writeUint8 (ToNumber prim) wr in
          let* wr :=
            match args with
            | Some a =>
                if Z.of_nat (length a) <? 3
                then for_of encodeBinary a wr
                else encodeSequence encodeBinary a wr
            | None => Ok wr
            end in
          Ok (encodeAnnots annots wr)
      end
  end.

Definition emitBinary (expr : Expr) : result (list Z) :=
  let w := Wr.new in
  let* w := encodeBinary expr w in
  Ok (buffer w).

(** ** Vocabulary of the statements *)

(** A byte value. *)
Definition byte (b : Z) : Prop := 0 <= b <= 255.

Definition bytes (l : list Z) : Prop := Forall byte l.

(** The four bytes of [n mod 2^32], most significant first. *)
Definition uint32be (n : Z) : list Z :=
  [(n / 2 ^ 24) mod 256; (n / 2 ^ 16) mod 256; (n / 2 ^ 8) mod 256; n mod 256].

(** The number a list of bytes denotes, most significant byte first. *)
Definition beValue (bs : list Z) : Z :=
  fold_left (fun acc b => acc * 256 + b) bs 0.


(** *** The bignum varint, in the words of the format description

    Sign and magnitude; a first byte with the low 6 bits of the magnitude
    in bits 0-5, the sign in bit 6 and the continuation flag in bit 7;
    then, while the magnitude shifted so far is not zero, a byte with its
    low 7 bits and the continuation flag. *)

Definition firstByte (sign : bool) (m : Z) : Z :=
  m mod 64 + (if sign then 64 else 0) + (if m / 64 =? 0 then 0 else 128).

Definition nextByte (m : Z) : Z :=
  m mod 128 + (if m / 128 =? 0 then 0 else 128).

Inductive varintTail : Z -> list Z -> Prop :=
| tail_done : varintTail 0 []
| tail_more (m : Z) (bs : list Z) :
    m <> 0 -> varintTail (m / 128) bs -> varintTail m (nextByte m :: bs).

Definition varint (n : Z) (bs : list Z) : Prop :=
  exists rest,
    bs = firstByte (n <? 0) (Z.abs n) :: rest /\ varintTail (Z.abs n / 64) rest.

(** The encodings of the elements of a list, concatenated in order. *)
Fixpoint emitList (l : list Expr) : result (list Z) :=
  match l with
  | [] => Ok []
  | x :: l' =>
      let* b := emitBinary x in
      let* bs := emitList l' in
      Ok (b ++ bs)
  end.

(** The body that follows the primitive index: nothing, the arguments one
    after the other, or (three arguments and more) the argument list
    encoded as a sequence. *)
Definition emitArgs (args : option (list Expr)) : result (list Z) :=
  match args with
  | None => Ok []
  | Some a =>
      if (length a <? 3)%nat then emitList a else emitBinary (Sequence a)
  end.

(** The UTF-8 bytes of the annotations joined with a single space. *)
Definition annotText (annots : list jsstring) : list Z :=
  TextEncoder_encode (join (lit " ") annots).

(** The annotation block: the length of [annotText] on four bytes, then
    the text; nothing without annotations. *)
Definition annotBlock (annots : option (list jsstring)) : list Z :=
  match annots with
  | Some (a :: l) =>
      uint32be (Z.of_nat (length (annotText (a :: l)))) ++ annotText (a :: l)
  | _ => []
  end.

(** The byte written for the value found in [primTags]. *)
Definition primByte (v : value) : Z :=
  match v with
  | VNumber i => i mod 256
  | _ => 0
  end.

(** The number of arguments of an application (none when the list is
    absent) and whether it carries an annotation. *)
Definition argCount (args : option (list Expr)) : Z :=
  match args with
  | Some a => Z.of_nat (length a)
  | None => 0
  end.

Definition annotated (annots : option (list jsstring)) : bool :=
  match annots with
  | Some (_ :: _) => true
  | _ => false
  end.

(** The compact-form tag: 3 + 2 * (argument count) + (1 with annotations). *)
Definition compactTag (n : Z) (annot : bool) : Z :=
  3 + 2 * n + (if annot then 1 else 0).

(** *** Hexadecimal text *)

Definition isHexDigit (c : N) : bool :=
  ((0x30 <=? c) && (c <=? 0x39) || (0x41 <=? c) && (c <=? 0x46)
   || (0x61 <=? c) && (c <=? 0x66))%N.

(** The value of a hexadecimal digit ['0'-'9'], ['A'-'F'], ['a'-'f']. *)
Definition hexValue (c : N) : Z :=
  if (c <=? 0x39)%N then Z.of_N c - 0x30
  else if (c <=? 0x46)%N then Z.of_N c - 0x41 + 10
  else Z.of_N c - 0x61 + 10.

(** The value of the [k]-th pair of digits of a hexadecimal text. *)
Definition hexPair (hex : jsstring) (k : nat) : Z :=
  16 * hexValue (nth (2 * k) hex 0%N) + hexValue (nth (2 * k + 1) hex 0%N).

Definition hexBytes (hex : jsstring) : list Z :=
  List.map (hexPair hex) (seq 0 (length hex / 2)).

(** *** The names and the integer texts of a tree, in the order met *)

Fixpoint primNames (e : Expr) : list jsstring :=
  match e with
  | Sequence items => flat_map primNames items
  | Prim name args _ =>
      name :: match args with
              | Some a => flat_map primNames a
              | None => []
              end
  | _ => []
  end.

Fixpoint intTexts (e : Expr) : list jsstring :=
  match e with
  | IntLiteral int => [int]
  | Sequence items => flat_map intTexts items
  | Prim _ (Some a) _ => flat_map intTexts a
  | _ => []
  end.

(** The outcome of an encoding on a tree whose integer texts are all
    numeric: bytes when every name has a value in [primTags], and
    otherwise the [TypeError] for a name of the tree without one. *)
Definition settled {A} (r : result A) (names : list jsstring) : Prop :=
  (exists a, r = Ok a /\ Forall (fun nm => primTag nm <> VUndefined) names)
  \/ (exists nm, r = Throw (TypeError nm)
                 /\ nm ∈ names /\ primTag nm = VUndefined).

(** *** Predicates used in the proofs *)

(** The text of an integer node is accepted by [BigInt]. *)
Definition numeric (t : jsstring) : Prop := is_Some (StringToBigInt t).

(** Encoding into a writer is encoding into a fresh one and appending. *)
Definition framed (e : Expr) : Prop :=
  forall wr,
    encodeBinary e wr
    = let* w := encodeBinary e Wr.new in Ok (mkWriter (buffer wr ++ buffer w)).

(** Encoding keeps a buffer of bytes a buffer of bytes. *)
Definition keeps_bytes (e : Expr) : Prop :=
  forall wr wr', bytes (buffer wr) -> encodeBinary e wr = Ok wr' -> bytes (buffer wr').


(** *** The decimal text of an integer *)

Fixpoint uintDigits (d : Decimal.uint) : list N :=
  match d with
  | Decimal.Nil => []
  | Decimal.D0 l => 0%N :: uintDigits l
  | Decimal.D1 l => 1%N :: uintDigits l
  | Decimal.D2 l => 2%N :: uintDigits l
  | Decimal.D3 l => 3%N :: uintDigits l
  | Decimal.D4 l => 4%N :: uintDigits l
  | Decimal.D5 l => 5%N :: uintDigits l
  | Decimal.D6 l => 6%N :: uintDigits l
  | Decimal.D7 l => 7%N :: uintDigits l
  | Decimal.D8 l => 8%N :: uintDigits l
  | Decimal.D9 l => 9%N :: uintDigits l
  end.

(** The characters ['0'] to ['9'] of a list of digits. *)
Definition digitChars (ds : list N) : jsstring := List.map (N.add 0x30) ds.

(** What [n.toString()] gives for a [BigInt] [n]. *)
Definition decimalText (n : Z) : jsstring :=
  match Z.to_int n with
  | Decimal.Pos d => digitChars (uintDigits d)
  | Decimal.Neg d => 0x2D%N :: digitChars (uintDigits d)
  end.

(** *** Outcomes and shapes *)

(** What an outcome says about the integer texts and the names of a tree:
    bytes come with numeric texts and names that all have a value, an
    exception names a text or a name of the tree that is at fault. *)
Definition explained {A} (r : result A) (ints names : list jsstring) : Prop :=
  match r with
  | Ok _ =>
      Forall numeric ints /\ Forall (fun nm => primTag nm <> VUndefined) names
  | Throw (SyntaxError t) => t ∈ ints /\ StringToBigInt t = None
  | Throw (TypeError nm) => nm ∈ names /\ primTag nm = VUndefined
  end.

(** The shape of a node: its kind and, for an application, its number of
    arguments and whether it is annotated. *)
Inductive Shape : Type :=
| ShInt
| ShString
| ShSequence
| ShBytes
| ShPrim (n : Z) (annot : bool).

Definition shapeOf (e : Expr) : Shape :=
  match e with
  | IntLiteral _ => ShInt
  | StringLiteral _ => ShString
  | Sequence _ => ShSequence
  | BytesLiteral _ => ShBytes
  | Prim _ args annots => ShPrim (argCount args) (annotated annots)
  end.

(** The tag of the enumeration [Tag] for a shape with at most two
    arguments. *)
Definition shapeTag (s : Shape) : Z :=
  match s with
  | ShInt => Tag.Int
  | ShString => Tag.String
  | ShSequence => Tag.Sequence
  | ShBytes => Tag.Bytes
  | ShPrim n annot => Tag.Prim0 + 2 * n + (if annot then 1 else 0)
  end.

(** An application with at most two arguments, or another node. *)
Definition compactForm (e : Expr) : Prop :=
  match e with
  | Prim _ args _ => argCount args <= 2
  | _ => True
  end.

(** * Properties *)

(** ** Induction over expressions *)

Lemma Expr_nested_ind (P : Expr -> Prop) :
  (forall int, P (IntLiteral int)) ->
  (forall str, P (StringLiteral str)) ->
  (forall hex, P (BytesLiteral hex)) ->
  (forall items, Forall P items -> P (Sequence items)) ->
  (forall name args annots,
      (forall a, args = Some a -> Forall P a) -> P (Prim name args annots)) ->
  forall e, P e.
Proof.
  intros HI HS HB HQ HP.
  fix IH 1. intros [int|str|hex|items|name args annots].
  - apply HI.
  - apply HS.
  - apply HB.
  - apply HQ. induction items as [|x items IHitems]; constructor; [apply IH|apply IHitems].
  - destruct args as [a|].
    + assert (Ha : Forall P a)
        by (induction a as [|x a IHa]; constructor; [apply IH|apply IHa]).
      apply HP. intros ? [= <-]. exact Ha.
    + apply HP. intros ? [=].
Qed.

(** ** Bytes, masks and 32-bit coercions *)

Lemma land_255 (x : Z) : Z.land x 255 = x mod 256.
Proof. change 255 with (Z.ones 8). now rewrite Z.land_ones by lia. Qed.

Lemma land_255_byte (x : Z) : byte (Z.land x 255).
Proof.
  rewrite land_255. unfold byte.
  pose proof (Z.mod_pos_bound x 256). lia.
Qed.

Lemma ToInt32_wrap (z : Z) : exists c, ToInt32 (Num z) = z + c * 2 ^ 32.
Proof.
  unfold ToInt32. rewrite Z.mod_eq by lia.
  destruct (_ <? _).
  - exists (- (z / 2 ^ 32)). lia.
  - exists (- (z / 2 ^ 32) - 1). lia.
Qed.

Lemma ToInt32_small (z : Z) : - 2 ^ 31 <= z < 2 ^ 31 -> ToInt32 (Num z) = z.
Proof.
  intros Hz. unfold ToInt32.
  destruct (Z.ltb_spec (z mod 2 ^ 32) (2 ^ 31)) as [Hlt|Hge].
  - destruct (Z.lt_ge_cases z 0) as [Hneg|Hpos].
    + rewrite <- (Z.mod_unique_pos z (2 ^ 32) (-1) (z + 2 ^ 32)) in Hlt; lia.
    + apply Z.mod_small. lia.
  - destruct (Z.lt_ge_cases z 0) as [Hneg|Hpos].
    + rewrite <- (Z.mod_unique_pos z (2 ^ 32) (-1) (z + 2 ^ 32)); lia.
    + rewrite Z.mod_small in Hge; lia.
Qed.

(** Byte [k / 8] (counted from the low end) of the 32-bit coercion of [z]
    is byte [k / 8] of [z] itself. *)
Lemma ToInt32_byte (z k : Z) :
  0 <= k <= 24 ->
  Z.land (Z.shiftr (Z.lor (ToInt32 (Num z)) 0) k) 255 = (z / 2 ^ k) mod 256.
Proof.
  intros Hk. rewrite Z.lor_0_r, land_255, Z.shiftr_div_pow2 by lia.
  destruct (ToInt32_wrap z) as [c ->].
  replace (c * 2 ^ 32) with (c * 2 ^ (32 - k) * 2 ^ k).
  2:{ rewrite <- Z.mul_assoc, <- Z.pow_add_r by lia. do 2 f_equal. lia. }
  rewrite Z.div_add by (apply Z.pow_nonzero; lia).
  replace (2 ^ (32 - k)) with (2 ^ (24 - k) * 256).
  2:{ change 256 with (2 ^ 8). rewrite <- Z.pow_add_r by lia. f_equal. lia. }
  rewrite Z.mul_assoc. apply Z_mod_plus_full.
Qed.

Lemma beValue_uint32be (n : Z) : 0 <= n < 2 ^ 32 -> beValue (uint32be n) = n.
Proof.
  intros Hn. unfold beValue, uint32be. cbn [fold_left].
  assert (H24 : n / 2 ^ 24 = (n / 2 ^ 24) mod 256).
  { symmetry. apply Z.mod_small. split; [apply Z.div_pos; lia|].
    apply Z.div_lt_upper_bound; lia. }
  rewrite <- H24.
  pose proof (Z.div_mod n 256 ltac:(lia)) as E0.
  pose proof (Z.div_mod (n / 2 ^ 8) 256 ltac:(lia)) as E1.
  pose proof (Z.div_mod (n / 2 ^ 16) 256 ltac:(lia)) as E2.
  rewrite Z.div_div in E1, E2 by lia.
  change (2 ^ 8 * 256) with (2 ^ 16) in E1.
  change (2 ^ 16 * 256) with (2 ^ 24) in E2.
  change (2 ^ 8) with 256 in *. lia.
Qed.

Lemma mod_256_byte (x : Z) : byte (x mod 256).
Proof. unfold byte. pose proof (Z.mod_pos_bound x 256). lia. Qed.

Lemma uint32be_bytes (n : Z) : bytes (uint32be n).
Proof. unfold uint32be, bytes. repeat constructor; apply mod_256_byte. Qed.

Lemma uint32be_length (n : Z) : length (uint32be n) = 4%nat.
Proof. reflexivity. Qed.

(** ** What each [Writer] operation appends *)

Lemma writeUint8_buffer (z : Z) (wr : Writer) :
  buffer (Wr.writeUint8 (Num z) wr) = buffer wr ++ [z mod 256].
Proof.
  unfold Wr.writeUint8, Wr.push. cbn [buffer].
  now rewrite <- (Z.shiftr_0_r (Z.lor _ 0)), ToInt32_byte, Z.pow_0_r, Z.div_1_r by lia.
Qed.

Lemma writeUint8_NaN (wr : Writer) :
  buffer (Wr.writeUint8 NaN wr) = buffer wr ++ [0].
Proof. reflexivity. Qed.

Lemma writeUint16_buffer (z : Z) (wr : Writer) :
  buffer (Wr.writeUint16 (Num z) wr) = buffer wr ++ [(z / 2 ^ 8) mod 256; z mod 256].
Proof.
  unfold Wr.writeUint16, Wr.push, sar. cbn [buffer].
  change (Z.land 8 31) with 8.
  rewrite <- (Z.shiftr_0_r (Z.lor _ 0)) at 2.
  rewrite !ToInt32_byte, Z.pow_0_r, Z.div_1_r by lia.
  now rewrite <- app_assoc.
Qed.

Lemma writeUint32_buffer (z : Z) (wr : Writer) :
  buffer (Wr.writeUint32 (Num z) wr) = buffer wr ++ uint32be z.
Proof.
  unfold Wr.writeUint32, Wr.push, sar, uint32be. cbn [buffer].
  change (Z.land 24 31) with 24. change (Z.land 16 31) with 16.
  change (Z.land 8 31) with 8.
  rewrite <- (Z.shiftr_0_r (Z.lor _ 0)) at 4.
  rewrite !ToInt32_byte, Z.pow_0_r, Z.div_1_r by lia.
  now rewrite <- !app_assoc.
Qed.

Lemma band_255_byte (v : number) : byte (band v (Num 255)).
Proof. unfold band. cbn [ToInt32]. apply land_255_byte. Qed.

Lemma band_255_id (b : Z) : byte b -> band (Num b) (Num 255) = b.
Proof.
  intros Hb. unfold band, byte in *.
  rewrite (ToInt32_small b), (ToInt32_small 255) by lia.
  rewrite land_255. apply Z.mod_small. lia.
Qed.

Lemma writeBytes_buffer (bs : list Z) (wr : Writer) :
  bytes bs -> buffer (Wr.writeBytes (List.map Num bs) wr) = buffer wr ++ bs.
Proof.
  intros Hbs. unfold Wr.writeBytes. cbn [buffer]. f_equal.
  induction Hbs as [|b bs Hb _ IH]; [reflexivity|].
  cbn [List.map]. now rewrite band_255_id, IH.
Qed.

Lemma writeBytes_bytes (val : list number) :
  bytes (List.map (fun v => band v (Num 255)) val).
Proof. induction val; constructor; [apply band_255_byte|assumption]. Qed.

(** ** The varint loop *)

Lemma N_land_pow2_small (a k : N) : (a < 2 ^ k)%N -> N.land a (2 ^ k) = 0%N.
Proof.
  intros Ha. apply N.bits_inj_0. intros n.
  rewrite N.land_spec, N.pow2_bits_eqb.
  destruct (N.eqb_spec k n) as [<-|Hne]; [|apply andb_false_r].
  rewrite <- (N.mod_small a (2 ^ k)) by assumption.
  now rewrite N.mod_pow2_bits_high.
Qed.

Lemma N_lor_pow2_small (a k : N) : (a < 2 ^ k)%N -> N.lor a (2 ^ k) = (a + 2 ^ k)%N.
Proof.
  intros Ha. pose proof (N_land_pow2_small a k Ha) as H0.
  now rewrite N.add_nocarry_lxor, N.lxor_lor.
Qed.

Lemma nextByte_code (val : N) :
  let byte := N.land val (N.shiftl 1 7 - 1) in
  let val' := N.shiftr val 7 in
  Z.of_N (if negb (val' =? 0)%N then N.lor byte 0x80 else byte)
  = nextByte (Z.of_N val).
Proof.
  cbv zeta. change (N.shiftl 1 7 - 1)%N with (N.ones 7).
  rewrite N.land_ones, N.shiftr_div_pow2. change (2 ^ 7)%N with 128%N.
  unfold nextByte. change 128 with (Z.of_N 128).
  rewrite <- N2Z.inj_div, <- N2Z.inj_mod.
  assert (Hm : (val mod 128 < 2 ^ 7)%N) by (apply N.mod_upper_bound; discriminate).
  destruct (N.eqb_spec (val / 128) 0) as [->|Hne]; cbn [negb].
  - cbn. lia.
  - change 128%N with (2 ^ 7)%N at 2. rewrite N_lor_pow2_small by assumption.
    destruct (Z.eqb_spec (Z.of_N (val / 128)) 0); [lia|].
    rewrite N2Z.inj_add. reflexivity.
Qed.

Lemma firstByte_code (val : N) (sign : bool) :
  let byte := N.land val (N.shiftl 1 6 - 1) in
  let val' := N.shiftr val 6 in
  let byte := if negb (val' =? 0)%N then N.lor byte 0x80 else byte in
  Z.of_N (if sign then N.lor byte 0x40 else byte)
  = firstByte sign (Z.of_N val).
Proof.
  cbv zeta. change (N.shiftl 1 6 - 1)%N with (N.ones 6).
  rewrite N.land_ones, N.shiftr_div_pow2. change (2 ^ 6)%N with 64%N.
  unfold firstByte. change 64 with (Z.of_N 64) at 1 3.
  rewrite <- N2Z.inj_div, <- N2Z.inj_mod.
  assert (Hm : (val mod 64 < 2 ^ 6)%N) by (apply N.mod_upper_bound; discriminate).
  assert (Hs : (N.lor (val mod 64) 0x40 = val mod 64 + 64)%N)
    by (apply (N_lor_pow2_small _ 6); assumption).
  assert (Hc : forall a, (a < 2 ^ 7)%N -> (N.lor a 0x80 = a + 128)%N)
    by (intros a Ha; apply (N_lor_pow2_small _ 7); assumption).
  destruct (N.eqb_spec (val / 64) 0) as [->|Hne]; cbn [negb].
  - destruct sign; [rewrite Hs|]; cbn; lia.
  - destruct (Z.eqb_spec (Z.of_N (val / 64)) 0); [lia|].
    destruct sign.
    + rewrite <- N.lor_assoc, (N.lor_comm 0x80), N.lor_assoc, Hs, Hc.
      * lia.
      * change (2 ^ 6)%N with 64%N in Hm. change (2 ^ 7)%N with 128%N. lia.
    + rewrite Hc; [lia|]. change (2 ^ 6)%N with 64%N in Hm.
      change (2 ^ 7)%N with 128%N. lia.
Qed.

Lemma nextByte_byte (m : Z) : byte (nextByte m).
Proof.
  unfold nextByte, byte. pose proof (Z.mod_pos_bound m 128).
  destruct (_ =? 0); lia.
Qed.

Lemma firstByte_byte (sign : bool) (m : Z) : byte (firstByte sign m).
Proof.
  unfold firstByte, byte. pose proof (Z.mod_pos_bound m 64).
  destruct (_ =? 0), sign; lia.
Qed.

Lemma encodeInt_step (i : Z) (val : N) (sign : bool) (wr : Writer) :
  encodeInt i val sign wr =
    let bits := if i =? 0 then 6%N else 7%N in
    let byte := N.land val (N.shiftl 1 bits - 1) in
    let val' := N.shiftr val bits in
    let byte := if negb (val' =? 0)%N then N.lor byte 0x80 else byte in
    let byte := if (i =? 0) && sign then N.lor byte 0x40 else byte in
    let wr := Wr.writeUint8 (Num (Z.of_N byte)) wr in
    if (val' =? 0)%N then wr else encodeInt (i + 1) val' sign wr.
Proof.
  rewrite encodeInt_equation_1. cbv zeta.
  destruct (N.eq_dec _ 0) as [E|E].
  - rewrite E. reflexivity.
  - apply N.eqb_neq in E. rewrite E. reflexivity.
Qed.

Lemma of_N_shiftr (val k : N) : Z.of_N (N.shiftr val k) = Z.of_N val / 2 ^ Z.of_N k.
Proof. now rewrite N.shiftr_div_pow2, N2Z.inj_div, N2Z.inj_pow. Qed.

Lemma writeUint8_byte (b : Z) (wr : Writer) :
  byte b -> buffer (Wr.writeUint8 (Num b) wr) = buffer wr ++ [b].
Proof.
  intros Hb. rewrite writeUint8_buffer, Z.mod_small; [reflexivity|].
  unfold byte in Hb. lia.
Qed.

(** After the first byte the loop writes the tail of the varint. *)
Lemma encodeInt_tail (val : N) :
  forall (i : Z) (sign : bool) (wr : Writer),
    0 < i -> val <> 0%N ->
    exists bs, buffer (encodeInt i val sign wr) = buffer wr ++ bs
               /\ varintTail (Z.of_N val) bs.
Proof.
  induction val as [val IH] using (well_founded_induction N.lt_wf_0).
  intros i sign wr Hi Hval.
  rewrite encodeInt_step.
  destruct (Z.eqb_spec i 0) as [->|_]; [lia|]. cbv zeta. cbn [andb].
  rewrite (nextByte_code val).
  assert (Hq : Z.of_N (N.shiftr val 7) = Z.of_N val / 128) by apply of_N_shiftr.
  destruct (N.eqb_spec (N.shiftr val 7) 0) as [E|E].
  - exists [nextByte (Z.of_N val)]. split.
    + apply writeUint8_byte, nextByte_byte.
    + constructor; [lia|]. rewrite <- Hq, E. constructor.
  - destruct (IH (N.shiftr val 7)) with (i := i + 1) (sign := sign)
      (wr := Wr.writeUint8 (Num (nextByte (Z.of_N val))) wr)
      as (bs & Hbuf & Htail); [|lia|assumption|].
    + rewrite N.shiftr_div_pow2. apply N.div_lt; [lia|reflexivity].
    + exists (nextByte (Z.of_N val) :: bs). split.
      * rewrite Hbuf, writeUint8_byte by apply nextByte_byte.
        now rewrite <- app_assoc.
      * constructor; [lia|]. now rewrite <- Hq.
Qed.

(** The whole loop writes the varint of the signed magnitude. *)
Lemma encodeInt_varint (val : N) (sign : bool) (wr : Writer) :
  exists rest,
    buffer (encodeInt 0 val sign wr)
    = buffer wr ++ firstByte sign (Z.of_N val) :: rest
    /\ varintTail (Z.of_N val / 64) rest.
Proof.
  rewrite encodeInt_step. cbv zeta. cbn [Z.eqb andb].
  rewrite (firstByte_code val sign).
  assert (Hq : Z.of_N (N.shiftr val 6) = Z.of_N val / 64) by apply of_N_shiftr.
  destruct (N.eqb_spec (N.shiftr val 6) 0) as [E|E].
  - exists []. split.
    + apply writeUint8_byte, firstByte_byte.
    + rewrite <- Hq, E. constructor.
  - destruct (encodeInt_tail (N.shiftr val 6) (0 + 1) sign
                (Wr.writeUint8 (Num (firstByte sign (Z.of_N val))) wr))
      as (bs & Hbuf & Htail); [lia|assumption|].
    exists bs. split.
    + rewrite Hbuf, writeUint8_byte by apply firstByte_byte.
      now rewrite <- app_assoc.
    + now rewrite <- Hq.
Qed.

Lemma varintTail_bytes (m : Z) (bs : list Z) : varintTail m bs -> bytes bs.
Proof.
  induction 1; constructor; [apply nextByte_byte|assumption].
Qed.

Lemma varintTail_functional (m : Z) (bs bs' : list Z) :
  varintTail m bs -> varintTail m bs' -> bs = bs'.
Proof.
  intros H. revert bs'. induction H as [|m bs Hm _ IH]; intros bs' H'.
  - inversion H'; [reflexivity|congruence].
  - inversion H' as [E|m' bs'' Hm' Htl]; subst; [congruence|].
    f_equal. now apply IH.
Qed.

Lemma varint_functional (n : Z) (bs bs' : list Z) :
  varint n bs -> varint n bs' -> bs = bs'.
Proof.
  intros (r & -> & Hr) (r' & -> & Hr'). f_equal.
  eapply varintTail_functional; eassumption.
Qed.

(** ** The encoder only appends *)

Ltac wr_norm :=
  unfold Wr.writeUint8, Wr.writeUint16, Wr.writeUint32, Wr.writeBytes,
    Wr.push, Wr.length, Wr.new;
  cbn [buffer]; rewrite <- ?app_assoc; cbn [app].

Lemma Writer_eta (wr : Writer) : mkWriter (buffer wr) = wr.
Proof. now destruct wr. Qed.

Lemma encodeInt_frame (val : N) (sign : bool) (wr : Writer) :
  encodeInt 0 val sign wr
  = mkWriter (buffer wr ++ buffer (encodeInt 0 val sign Wr.new)).
Proof.
  destruct (encodeInt_varint val sign wr) as (r & E & Hr).
  destruct (encodeInt_varint val sign Wr.new) as (r' & E' & Hr').
  rewrite <- (Writer_eta (encodeInt 0 val sign wr)), E, E'.
  now rewrite (varintTail_functional _ _ _ Hr Hr').
Qed.

Lemma encodeSequence_frame (enc : Expr -> Writer -> result Writer)
    (items : list Expr) (wr : Writer) :
  encodeSequence enc items wr
  = let* w := encodeSequence enc items Wr.new in
    Ok (mkWriter (buffer wr ++ buffer w)).
Proof.
  unfold encodeSequence. destruct (for_of enc items Wr.new); cbn [bind]; [|reflexivity].
  now wr_norm.
Qed.

Lemma encodeAnnots_frame (annots : option (list jsstring)) (wr : Writer) :
  encodeAnnots annots wr
  = mkWriter (buffer wr ++ buffer (encodeAnnots annots Wr.new)).
Proof.
  unfold encodeAnnots. destruct annots as [a|]; [destruct (negb _)|].
  - now wr_norm.
  - cbn. now rewrite app_nil_r, Writer_eta.
  - cbn. now rewrite app_nil_r, Writer_eta.
Qed.

Lemma for_of_framed (l : list Expr) :
  Forall framed l ->
  forall wr,
    for_of encodeBinary l wr
    = let* w := for_of encodeBinary l Wr.new in
      Ok (mkWriter (buffer wr ++ buffer w)).
Proof.
  induction 1 as [|x l Hx _ IH]; intros wr; cbn [for_of].
  - cbn. now rewrite app_nil_r, Writer_eta.
  - rewrite (Hx wr). destruct (encodeBinary x Wr.new) as [w|]; cbn [bind]; [|reflexivity].
    rewrite (IH (mkWriter _)), (IH w).
    destruct (for_of encodeBinary l Wr.new) as [w'|]; cbn [bind buffer]; [|reflexivity].
    now rewrite app_assoc.
Qed.

(** The block [if (expr.args !== undefined) { ... }]. *)
Lemma encodeArgs_framed (args : option (list Expr)) :
  (forall a, args = Some a -> Forall framed a) ->
  forall wr,
    match args with
    | Some a =>
        if Z.of_nat (length a) <? 3
        then for_of encodeBinary a wr
        else encodeSequence encodeBinary a wr
    | None => Ok wr
    end
    = let* w := match args with
                | Some a =>
                    if Z.of_nat (length a) <? 3
                    then for_of encodeBinary a Wr.new
                    else encodeSequence encodeBinary a Wr.new
                | None => Ok Wr.new
                end in
      Ok (mkWriter (buffer wr ++ buffer w)).
Proof.
  intros IH wr. destruct args as [a|]; [destruct (_ <? 3)|].
  - now apply for_of_framed, IH.
  - apply encodeSequence_frame.
  - cbn. now rewrite app_nil_r, Writer_eta.
Qed.

Lemma encodeBinary_framed (e : Expr) : framed e.
Proof.
  induction e as [int|str|hex|items IH|name args annots IH] using Expr_nested_ind;
    intros wr; cbn [encodeBinary].
  - destruct (BigInt int) as [val|]; cbn [bind]; [|reflexivity].
    rewrite encodeInt_frame, (encodeInt_frame _ _ (Wr.writeUint8 _ Wr.new)).
    now wr_norm.
  - cbn [bind]. now wr_norm.
  - cbn [bind]. now wr_norm.
  - apply encodeSequence_frame.
  - destruct (primTag name) as [|idx|]; [reflexivity|..].
    all: rewrite (encodeArgs_framed args IH (Wr.writeUint8 _ (Wr.writeUint8 _ wr)));
      rewrite (encodeArgs_framed args IH (Wr.writeUint8 _ (Wr.writeUint8 _ Wr.new)));
      match goal with
      | |- context [bind ?m _] => destruct m as [w|]; cbn [bind]; [|reflexivity]
      end;
      rewrite encodeAnnots_frame, (encodeAnnots_frame _ (mkWriter (_ ++ buffer w)));
      now wr_norm.
Qed.

Lemma encodeBinary_emit (e : Expr) (wr : Writer) :
  encodeBinary e wr
  = let* bs := emitBinary e in Ok (mkWriter (buffer wr ++ bs)).
Proof.
  unfold emitBinary. rewrite encodeBinary_framed.
  now destruct (encodeBinary e Wr.new).
Qed.

Lemma for_of_emit (l : list Expr) (wr : Writer) :
  for_of encodeBinary l wr
  = let* bs := emitList l in Ok (mkWriter (buffer wr ++ bs)).
Proof.
  revert wr. induction l as [|x l IH]; intros wr; cbn [for_of emitList].
  - cbn. now rewrite app_nil_r, Writer_eta.
  - rewrite encodeBinary_emit. destruct (emitBinary x) as [b|]; cbn [bind]; [|reflexivity].
    rewrite IH. destruct (emitList l) as [bs|]; cbn [bind buffer]; [|reflexivity].
    now rewrite app_assoc.
Qed.

(** ** Every write appends byte values *)

Lemma push_bytes (x : Z) (wr : Writer) :
  bytes (buffer wr) -> bytes (buffer (Wr.push (Z.land x 255) wr)).
Proof.
  intros H. unfold Wr.push. cbn [buffer]. apply Forall_app. split; [assumption|].
  constructor; [apply land_255_byte|constructor].
Qed.

Lemma writeUint8_bytes (val : number) (wr : Writer) :
  bytes (buffer wr) -> bytes (buffer (Wr.writeUint8 val wr)).
Proof. intros H. unfold Wr.writeUint8. now apply push_bytes. Qed.

Lemma writeUint16_bytes (val : number) (wr : Writer) :
  bytes (buffer wr) -> bytes (buffer (Wr.writeUint16 val wr)).
Proof. intros H. unfold Wr.writeUint16. now do 2 apply push_bytes. Qed.

Lemma writeUint32_bytes (val : number) (wr : Writer) :
  bytes (buffer wr) -> bytes (buffer (Wr.writeUint32 val wr)).
Proof. intros H. unfold Wr.writeUint32. now do 4 apply push_bytes. Qed.

Lemma writeBytes_keeps_bytes (val : list number) (wr : Writer) :
  bytes (buffer wr) -> bytes (buffer (Wr.writeBytes val wr)).
Proof.
  intros H. unfold Wr.writeBytes. cbn [buffer]. apply Forall_app.
  split; [assumption|apply writeBytes_bytes].
Qed.

Lemma encodeInt_bytes (val : N) (sign : bool) (wr : Writer) :
  bytes (buffer wr) -> bytes (buffer (encodeInt 0 val sign wr)).
Proof.
  intros H. destruct (encodeInt_varint val sign wr) as (r & -> & Hr).
  apply Forall_app. split; [assumption|].
  constructor; [apply firstByte_byte|eapply varintTail_bytes, Hr].
Qed.

Lemma encodeAnnots_bytes (annots : option (list jsstring)) (wr : Writer) :
  bytes (buffer wr) -> bytes (buffer (encodeAnnots annots wr)).
Proof.
  intros H. unfold encodeAnnots. destruct annots as [a|]; [destruct (negb _)|]; try assumption.
  now apply writeBytes_keeps_bytes, writeUint32_bytes.
Qed.

Lemma encodeSequence_bytes (enc : Expr -> Writer -> result Writer)
    (items : list Expr) (wr wr' : Writer) :
  bytes (buffer wr) -> encodeSequence enc items wr = Ok wr' -> bytes (buffer wr').
Proof.
  intros H. unfold encodeSequence.
  destruct (for_of enc items Wr.new) as [w|]; cbn [bind]; [|discriminate].
  intros [= <-]. now apply writeBytes_keeps_bytes, writeUint32_bytes, writeUint8_bytes.
Qed.

Lemma for_of_bytes (l : list Expr) :
  Forall keeps_bytes l ->
  forall wr wr',
    bytes (buffer wr) -> for_of encodeBinary l wr = Ok wr' -> bytes (buffer wr').
Proof.
  induction 1 as [|x l Hx _ IH]; intros wr wr' Hwr; cbn [for_of].
  - now intros [= <-].
  - destruct (encodeBinary x wr) as [w|] eqn:E; cbn [bind]; [|discriminate].
    apply IH. eapply Hx; eassumption.
Qed.

Lemma encodeArgs_bytes (args : option (list Expr)) :
  (forall a, args = Some a -> Forall keeps_bytes a) ->
  forall wr wr',
    bytes (buffer wr) ->
    match args with
    | Some a =>
        if Z.of_nat (length a) <? 3
        then for_of encodeBinary a wr
        else encodeSequence encodeBinary a wr
    | None => Ok wr
    end = Ok wr' ->
    bytes (buffer wr').
Proof.
  intros IH wr wr' Hwr. destruct args as [a|]; [destruct (_ <? 3)|].
  - apply (for_of_bytes a (IH a eq_refl)), Hwr.
  - now apply encodeSequence_bytes.
  - now intros [= <-].
Qed.

Lemma encodeBinary_bytes (e : Expr) : keeps_bytes e.
Proof.
  induction e as [int|str|hex|items IH|name args annots IH] using Expr_nested_ind;
    intros wr wr' Hwr; cbn [encodeBinary].
  - destruct (BigInt int) as [val|]; cbn [bind]; [|discriminate].
    intros [= <-]. now apply encodeInt_bytes, writeUint8_bytes.
  - intros [= <-]. now apply writeBytes_keeps_bytes, writeUint32_bytes, writeUint8_bytes.
  - intros [= <-]. now apply writeBytes_keeps_bytes, writeUint32_bytes, writeUint8_bytes.
  - now apply encodeSequence_bytes.
  - destruct (primTag name) as [|idx|]; [discriminate|..].
    all: match goal with
         | |- bind ?m _ = _ -> _ => destruct m as [w|] eqn:E; cbn [bind]; [|discriminate]
         end;
      apply (encodeArgs_bytes args IH) in E; [|now do 2 apply writeUint8_bytes];
      intros [= <-]; now apply encodeAnnots_bytes.
Qed.

Lemma emitBinary_bytes (e : Expr) (bs : list Z) : emitBinary e = Ok bs -> bytes bs.
Proof.
  unfold emitBinary. destruct (encodeBinary e Wr.new) as [w|] eqn:E; cbn [bind]; [|discriminate].
  intros [= <-]. eapply encodeBinary_bytes; [|exact E]. constructor.
Qed.

Lemma emitList_bytes (l : list Expr) (bs : list Z) : emitList l = Ok bs -> bytes bs.
Proof.
  revert bs. induction l as [|x l IH]; intros bs; cbn [emitList].
  - intros [= <-]. constructor.
  - destruct (emitBinary x) as [b|] eqn:Ex; cbn [bind]; [|discriminate].
    destruct (emitList l) as [bs'|]; cbn [bind]; [|discriminate].
    intros [= <-]. apply Forall_app. split; [now apply (emitBinary_bytes x)|now apply IH].
Qed.

(** ** The primitive table *)

Lemma fold_assign_lookup (l : list (jsstring * Z)) :
  NoDup l.*1 ->
  forall (m : gmap jsstring Z) (name : jsstring),
    fold_left assign l m !! name
    = match (list_to_map l : gmap jsstring Z) !! name with
      | Some x => Some x
      | None => m !! name
      end.
Proof.
  induction l as [|[k v] l IH]; intros Hnd m name; cbn [fold_left].
  - now rewrite list_to_map_nil, lookup_empty.
  - rewrite fmap_cons in Hnd. cbn [fst] in Hnd. apply NoDup_cons in Hnd as [Hk Hnd].
    rewrite IH by assumption. unfold assign. rewrite list_to_map_cons. cbn [fst snd].
    destruct (decide (k = name)) as [<-|Hne].
    + rewrite (not_elem_of_list_to_map_1 l k Hk).
      now rewrite !lookup_insert_eq.
    + now rewrite !lookup_insert_ne by assumption.
Qed.

Lemma primitives_NoDup : NoDup primitives.
Proof. apply (bool_decide_unpack _). vm_compute. exact I. Qed.

Lemma primitives_length : length primitives = 141%nat.
Proof. reflexivity. Qed.

(** [primTags] maps each name of the table to its position, and has no
    other key. *)
Lemma primTags_spec (name : jsstring) (idx : Z) :
  primTags !! name = Some idx
  <-> exists i : nat, primitives !! i = Some name /\ idx = Z.of_nat i.
Proof.
  unfold primTags.
  set (pairs := imap (fun i v => (v, Z.of_nat i)) primitives).
  assert (Hfst : pairs.*1 = primitives).
  { subst pairs. rewrite fmap_imap. apply list_eq. intros i.
    rewrite list_lookup_imap. now destruct (primitives !! i). }
  assert (Hnd : NoDup pairs.*1) by (rewrite Hfst; apply primitives_NoDup).
  rewrite fold_assign_lookup, lookup_empty by assumption.
  transitivity ((list_to_map pairs : gmap jsstring Z) !! name = Some idx).
  { now destruct (list_to_map pairs !! name). }
  rewrite <- elem_of_list_to_map by assumption.
  subst pairs. rewrite elem_of_lookup_imap. split.
  - intros (i & v & [= -> ->] & Hi). eauto.
  - intros (i & Hi & ->). eauto.
Qed.

Lemma primTags_index (name : jsstring) (idx : Z) :
  primTags !! name = Some idx -> 0 <= idx < 141.
Proof.
  intros (i & Hi & ->)%primTags_spec. apply lookup_lt_Some in Hi.
  rewrite primitives_length in Hi. lia.
Qed.

Lemma primTags_known (name : jsstring) :
  name ∈ primitives <-> is_Some (primTags !! name).
Proof.
  rewrite list_elem_of_lookup. split.
  - intros (i & Hi). exists (Z.of_nat i). apply primTags_spec. eauto.
  - intros (idx & (i & Hi & _)%primTags_spec). eauto.
Qed.

Lemma primTag_number (name : jsstring) (idx : Z) :
  primTag name = VNumber idx <-> primTags !! name = Some idx.
Proof.
  unfold primTag, get. destruct (primTags !! name) as [i|].
  - split; congruence.
  - split; [|discriminate]. now destruct (bool_decide _).
Qed.

Lemma primTag_undefined (name : jsstring) :
  primTag name = VUndefined <-> (name ∉ primitives) /\ (name ∉ ObjectPrototype).
Proof.
  rewrite primTags_known. unfold primTag, get.
  destruct (primTags !! name) as [i|].
  - split; [discriminate|]. intros [H _]. destruct H. eauto.
  - case_bool_decide as Hp.
    + split; [discriminate|]. now intros [_ H].
    + split; [|reflexivity]. intros _. split; [|assumption]. now intros [? [=]].
Qed.

Lemma primTag_object (name : jsstring) :
  primTag name = VObject <-> (name ∉ primitives) /\ (name ∈ ObjectPrototype).
Proof.
  rewrite primTags_known. unfold primTag, get.
  destruct (primTags !! name) as [i|].
  - split; [discriminate|]. intros [H _]. destruct H. eauto.
  - case_bool_decide as Hp.
    + split; [|reflexivity]. intros _. split; [|assumption]. now intros [? [=]].
    + split; [discriminate|]. now intros [_ H].
Qed.

(** ** UTF-8 output is made of bytes *)

Lemma N_lor_lt_pow2 (a b k : N) :
  (a < 2 ^ k)%N -> (b < 2 ^ k)%N -> (N.lor a b < 2 ^ k)%N.
Proof.
  intros Ha Hb.
  destruct (N.eq_dec a 0) as [->|Ha0]; [now rewrite N.lor_0_l|].
  destruct (N.eq_dec b 0) as [->|Hb0]; [now rewrite N.lor_0_r|].
  assert (Hab : N.lor a b <> 0%N) by (rewrite N.lor_eq_0_iff; tauto).
  apply N.log2_lt_pow2; [lia|]. rewrite N.log2_lor.
  apply N.log2_lt_pow2 in Ha, Hb; lia.
Qed.

Lemma N_land_63 (a : N) : (N.land a 0x3F < 64)%N.
Proof.
  change 0x3F%N with (N.ones 6). rewrite N.land_ones.
  now apply N.mod_upper_bound.
Qed.

Lemma N_land_7 (a : N) : (N.land a 0x07 < 8)%N.
Proof.
  change 0x07%N with (N.ones 3). rewrite N.land_ones.
  now apply N.mod_upper_bound.
Qed.

Lemma cont_lt_256 (a : N) : (N.lor 0x80 (N.land a 0x3F) < 256)%N.
Proof.
  apply (N_lor_lt_pow2 _ _ 8); [reflexivity|].
  pose proof (N_land_63 a). change (2 ^ 8)%N with 256%N. lia.
Qed.

Lemma utf8CodePoint_lt_256 (cp : N) : Forall (fun b => (b < 256)%N) (utf8CodePoint cp).
Proof.
  unfold utf8CodePoint.
  destruct (N.ltb_spec cp 0x80) as [H1|H1]; [repeat constructor; lia|].
  destruct (N.ltb_spec cp 0x800) as [H2|H2].
  { repeat constructor; [|apply cont_lt_256].
    apply (N_lor_lt_pow2 _ _ 8); [reflexivity|].
    rewrite N.shiftr_div_pow2. change (2 ^ 8)%N with 256%N.
    apply N.Div0.div_lt_upper_bound. change (2 ^ 6)%N with 64%N. lia. }
  destruct (N.ltb_spec cp 0x10000) as [H3|H3].
  { repeat constructor; [|apply cont_lt_256..].
    apply (N_lor_lt_pow2 _ _ 8); [reflexivity|].
    rewrite N.shiftr_div_pow2. change (2 ^ 8)%N with 256%N.
    apply N.Div0.div_lt_upper_bound. change (2 ^ 12)%N with 4096%N. lia. }
  repeat constructor; [|apply cont_lt_256..].
  apply (N_lor_lt_pow2 _ _ 8); [reflexivity|].
  pose proof (N_land_7 (N.shiftr cp 18)). change (2 ^ 8)%N with 256%N. lia.
Qed.

Lemma TextEncoder_bytes (s : jsstring) : bytes (TextEncoder_encode s).
Proof.
  unfold TextEncoder_encode, bytes.
  induction (codePoints s) as [|cp l IH]; [constructor|].
  cbn [List.map List.concat]. rewrite List.map_app. apply Forall_app. split; [|exact IH].
  pose proof (utf8CodePoint_lt_256 cp) as H.
  induction H as [|b bs Hb _ IHb]; constructor; [|exact IHb].
  unfold byte. lia.
Qed.

(** ** The layout of an application *)

Lemma emitArgs_spec (args : option (list Expr)) (wr : Writer) :
  match args with
  | Some a =>
      if Z.of_nat (length a) <? 3
      then for_of encodeBinary a wr
      else encodeSequence encodeBinary a wr
  | None => Ok wr
  end
  = let* bs := emitArgs args in Ok (mkWriter (buffer wr ++ bs)).
Proof.
  destruct args as [a|]; cbn [emitArgs bind].
  - replace (Z.of_nat (length a) <? 3) with (length a <? 3)%nat.
    2:{ destruct (Nat.ltb_spec (length a) 3), (Z.ltb_spec (Z.of_nat (length a)) 3); lia || reflexivity. }
    destruct (_ <? _)%nat; [apply for_of_emit|].
    change (encodeSequence encodeBinary a wr) with (encodeBinary (Sequence a) wr).
    apply encodeBinary_emit.
  - now rewrite app_nil_r, Writer_eta.
Qed.

Lemma encodeAnnots_block (annots : option (list jsstring)) (wr : Writer) :
  buffer (encodeAnnots annots wr) = buffer wr ++ annotBlock annots.
Proof.
  unfold encodeAnnots, annotBlock. destruct annots as [[|a l]|]; cbn [length negb Z.eqb Z.of_nat].
  - now rewrite app_nil_r.
  - change (Z.of_nat (S (length l)) =? 0) with false. cbn [negb].
    rewrite writeBytes_buffer, writeUint32_buffer by apply TextEncoder_bytes.
    now rewrite <- app_assoc.
  - now rewrite app_nil_r.
Qed.

Lemma emitBinary_Prim (name : jsstring) (args : option (list Expr))
    (annots : option (list jsstring)) :
  emitBinary (Prim name args annots)
  = match primTag name with
    | VUndefined => Throw (TypeError name)
    | v =>
        let* argBytes := emitArgs args in
        Ok ([primTagOf args annots mod 256; primByte v]
              ++ argBytes ++ annotBlock annots)
    end.
Proof.
  unfold emitBinary. cbn [encodeBinary].
  destruct (primTag name) as [|idx|]; [reflexivity| |].
  all: rewrite emitArgs_spec; destruct (emitArgs args) as [bs|]; cbn [bind]; [|reflexivity].
  all: rewrite encodeAnnots_block; cbn [buffer ToNumber primByte].
  - rewrite !writeUint8_buffer. cbn [Wr.new buffer app]. reflexivity.
  - rewrite writeUint8_NaN, writeUint8_buffer. cbn [Wr.new buffer app]. reflexivity.
Qed.

(** * The claims *)

(** ** C1: the tag of an application *)

Lemma arityTest_true (args : option (list Expr)) : arityTest args = true.
Proof. destruct args as [a|]; [|reflexivity]. cbn. now destruct (negb _). Qed.

Lemma primTagOf_compact (args : option (list Expr)) (annots : option (list jsstring)) :
  primTagOf args annots = compactTag (argCount args) (annotated annots).
Proof.
  unfold primTagOf, compactTag. rewrite arityTest_true.
  unfold Tag.Prim0, argsLength, argCount, annotBit, annotated.
  assert (Hbit : (match annots with
                  | Some a => if Z.of_nat (length a) =? 0 then 0 else 1
                  | None => 0
                  end)
                 = if match annots with Some (_ :: _) => true | _ => false end
                   then 1 else 0).
  { now destruct annots as [[|x l]|]. }
  rewrite Hbit. destruct args; lia.
Qed.

Lemma in_primitives_number (name : jsstring) :
  name ∈ primitives -> exists idx, primTag name = VNumber idx /\ 0 <= idx < 141.
Proof.
  intros [idx Hidx]%primTags_known. exists idx. split.
  - now apply primTag_number.
  - eapply primTags_index, Hidx.
Qed.

(** C1 (as amended).  For an application whose name is in the primitive
    table the arity test always selects the compact branch, so the tag
    value is 3 + 2 * (argument count) + (1 with annotations) for every
    argument count, and the generic tag is never chosen by the test.  The
    tag byte written is that value modulo 256; it is the value itself up to
    125 arguments.  With exactly 3 arguments and no annotation the tag byte
    is 9, and with 4 to 125 arguments it is 11 or more. *)
Theorem C1_tag_byte (name : jsstring) (args : option (list Expr))
    (annots : option (list jsstring)) (bs : list Z) :
  name ∈ primitives ->
  emitBinary (Prim name args annots) = Ok bs ->
  let tag := compactTag (argCount args) (annotated annots) in
  arityTest args = true
  /\ primTagOf args annots = tag
  /\ (exists rest, bs = tag mod 256 :: rest)
  /\ (argCount args <= 125 -> exists rest, bs = tag :: rest)
  /\ (argCount args = 3 -> annotated annots = false -> exists rest, bs = 9 :: rest)
  /\ (4 <= argCount args <= 125 -> exists t rest, bs = t :: rest /\ 11 <= t).
Proof.
  intros Hname Hemit tag.
  destruct (in_primitives_number name Hname) as (idx & Hidx & _).
  rewrite emitBinary_Prim, Hidx, primTagOf_compact in Hemit. fold tag in Hemit.
  destruct (emitArgs args) as [argBytes|]; cbn [bind] in Hemit; [|discriminate].
  injection Hemit as <-. cbn [app].
  assert (Hlo : 0 <= argCount args) by (unfold argCount; destruct args; lia).
  assert (Hsmall : argCount args <= 125 -> tag mod 256 = tag).
  { intros Hn. apply Z.mod_small. subst tag. unfold compactTag.
    destruct (annotated annots); lia. }
  split; [apply arityTest_true|]. split; [apply primTagOf_compact|].
  split; [eauto|]. split; [intros Hn; rewrite (Hsmall Hn); eauto|]. split.
  - intros Hn Ha. rewrite Hsmall by lia. subst tag. rewrite Hn, Ha. eauto.
  - intros Hn. rewrite Hsmall by lia. eexists _, _. split; [reflexivity|].
    subst tag. unfold compactTag. destruct (annotated annots); lia.
Qed.

Lemma C1_tag_byte_witness :
  (lit "Pair" ∈ primitives)
  /\ emitBinary (Prim (lit "Pair")
                   (Some [IntLiteral (lit "1"); IntLiteral (lit "2");
                          IntLiteral (lit "3")]) None)
     = Ok [9; 7; 2; 0; 0; 0; 6; 0; 1; 0; 2; 0; 3]
  /\ exists rest, [9; 7; 2; 0; 0; 0; 6; 0; 1; 0; 2; 0; 3] = 9 :: rest.
Proof.
  assert (Hin : lit "Pair" ∈ primitives)
    by (apply (bool_decide_unpack _); vm_compute; exact I).
  assert (Hemit : emitBinary (Prim (lit "Pair")
                   (Some [IntLiteral (lit "1"); IntLiteral (lit "2");
                          IntLiteral (lit "3")]) None)
     = Ok [9; 7; 2; 0; 0; 0; 6; 0; 1; 0; 2; 0; 3]) by (vm_compute; reflexivity).
  split; [exact Hin|]. split; [exact Hemit|].
  apply (C1_tag_byte _ _ _ _ Hin Hemit); reflexivity.
Defined.

(** C1 as stated fails from 127 arguments on: the value 3 + 2 * 127 = 257
    is written as the byte 1, which is neither the value of the formula nor
    11 or more. *)
Lemma C1_tag_byte_counterexample :
  let args := Some (replicate 127 (IntLiteral (lit "0"))) in
  (lit "Pair" ∈ primitives)
  /\ argCount args = 127
  /\ exists rest,
       emitBinary (Prim (lit "Pair") args None) = Ok (1 :: rest)
       /\ 1 <> compactTag (argCount args) false
       /\ ~ 11 <= 1.
Proof.
  cbv zeta. split; [apply (bool_decide_unpack _); vm_compute; exact I|].
  split; [reflexivity|]. eexists. split; [vm_compute; reflexivity|].
  split; [discriminate|lia].
Qed.

(** ** C2: integers *)

Lemma div_add_small (r q d : Z) : 0 <= r < d -> (r + q * d) / d = q.
Proof. intros Hr. rewrite Z.div_add by lia. rewrite Z.div_small by lia. lia. Qed.

Lemma mod_add_small (r q d : Z) : 0 <= r < d -> (r + q * d) mod d = r.
Proof. intros Hr. rewrite Z_mod_plus_full. apply Z.mod_small. lia. Qed.

Lemma testbit_div (a n : Z) : 0 <= n -> Z.testbit a n = Z.odd (a / 2 ^ n).
Proof. intros Hn. now rewrite Z.testbit_odd, Z.shiftr_div_pow2. Qed.

(** The bits of a first byte. *)
Lemma firstByte_bits (sign : bool) (m : Z) :
  Z.land (firstByte sign m) 63 = Z.land m 63
  /\ Z.testbit (firstByte sign m) 6 = sign
  /\ Z.testbit (firstByte sign m) 7 = negb (Z.shiftr m 6 =? 0).
Proof.
  unfold firstByte. rewrite Z.shiftr_div_pow2 by lia. change (2 ^ 6) with 64.
  change 63 with (Z.ones 6). rewrite !Z.land_ones by lia. change (2 ^ 6) with 64.
  pose proof (Z.mod_pos_bound m 64 ltac:(lia)) as Hr.
  set (r := m mod 64) in *. clearbody r.
  set (c := m / 64 =? 0). clearbody c.
  rewrite !testbit_div by lia. change (2 ^ 6) with 64. change (2 ^ 7) with 128.
  destruct sign, c; cbn [negb].
  - replace (r + 64 + 0) with (r + 1 * 64) by lia.
    rewrite mod_add_small, div_add_small by lia.
    replace (r + 1 * 64) with ((r + 64) + 0 * 128) by lia.
    rewrite div_add_small by lia. auto.
  - replace (r + 64 + 128) with (r + 3 * 64) by lia.
    rewrite mod_add_small, div_add_small by lia.
    replace (r + 3 * 64) with ((r + 64) + 1 * 128) by lia.
    rewrite div_add_small by lia. auto.
  - replace (r + 0 + 0) with (r + 0 * 64) by lia.
    rewrite mod_add_small, div_add_small by lia.
    replace (r + 0 * 64) with (r + 0 * 128) by lia.
    rewrite div_add_small by lia. auto.
  - replace (r + 0 + 128) with (r + 2 * 64) by lia.
    rewrite mod_add_small, div_add_small by lia.
    replace (r + 2 * 64) with (r + 1 * 128) by lia.
    rewrite div_add_small by lia. auto.
Qed.

(** The bits of a later byte. *)
Lemma nextByte_bits (m : Z) :
  Z.land (nextByte m) 127 = Z.land m 127
  /\ Z.testbit (nextByte m) 7 = negb (Z.shiftr m 7 =? 0).
Proof.
  unfold nextByte. rewrite Z.shiftr_div_pow2 by lia. change (2 ^ 7) with 128.
  change 127 with (Z.ones 7). rewrite !Z.land_ones by lia. change (2 ^ 7) with 128.
  pose proof (Z.mod_pos_bound m 128 ltac:(lia)) as Hr.
  set (r := m mod 128) in *. clearbody r.
  set (c := m / 128 =? 0). clearbody c.
  rewrite !testbit_div by lia. change (2 ^ 7) with 128.
  destruct c; cbn [negb].
  - replace (r + 0) with (r + 0 * 128) by lia.
    rewrite mod_add_small, div_add_small by lia. auto.
  - replace (r + 128) with (r + 1 * 128) by lia.
    rewrite mod_add_small, div_add_small by lia. auto.
Qed.

(** Byte [k] of the tail carries the bits from [7 * k] on of the magnitude
    that remains, and the tail stops exactly when nothing remains. *)
Lemma varintTail_bits (m : Z) (rest : list Z) :
  varintTail m rest ->
  (forall (k : nat) (b : Z),
      rest !! k = Some b ->
      Z.land b 127 = Z.land (Z.shiftr m (7 * Z.of_nat k)) 127
      /\ Z.testbit b 7 = negb (Z.shiftr m (7 * (Z.of_nat k + 1)) =? 0)
      /\ Z.shiftr m (7 * Z.of_nat k) <> 0)
  /\ Z.shiftr m (7 * Z.of_nat (length rest)) = 0.
Proof.
  induction 1 as [|m bs Hm Htl [IHk IHlen]].
  - split; [intros k b [=]|reflexivity].
  - assert (Hsh : forall j, 0 <= j -> Z.shiftr (m / 128) j = Z.shiftr m (7 + j)).
    { intros j Hj. change 128 with (2 ^ 7). rewrite <- Z.shiftr_div_pow2 by lia.
      now rewrite Z.shiftr_shiftr by lia. }
    split.
    + intros [|k] b Hb.
      * injection Hb as <-. cbn [Z.of_nat]. rewrite Z.mul_0_r, Z.shiftr_0_r.
        destruct (nextByte_bits m) as [E1 E2]. now rewrite E1, E2.
      * cbn [lookup list_lookup] in Hb. destruct (IHk k b Hb) as (E1 & E2 & E3).
        rewrite !Hsh in E1, E2, E3 by lia.
        now replace (7 * Z.of_nat (S k)) with (7 + 7 * Z.of_nat k) by lia;
        replace (7 * (Z.of_nat (S k) + 1)) with (7 + 7 * (Z.of_nat k + 1)) by lia.
    + cbn [length]. rewrite Hsh in IHlen by lia.
      now replace (7 * Z.of_nat (S (length bs))) with (7 + 7 * Z.of_nat (length bs)) by lia.
Qed.

Lemma emitBinary_IntLiteral (int : jsstring) :
  emitBinary (IntLiteral int)
  = let* val := BigInt int in
    Ok (0 :: buffer (encodeInt 0 (Z.to_N (Z.abs val)) (val <? 0) Wr.new)).
Proof.
  unfold emitBinary. cbn [encodeBinary].
  destruct (BigInt int) as [val|]; cbn [bind]; [|reflexivity].
  rewrite encodeInt_frame. cbn [buffer Wr.new app].
  replace (if val <? 0 then - val else val) with (Z.abs val); [reflexivity|].
  destruct (Z.ltb_spec val 0); lia.
Qed.

Lemma emitBinary_IntLiteral_varint (int : jsstring) (n : Z) :
  StringToBigInt int = Some n ->
  exists bs, emitBinary (IntLiteral int) = Ok (0 :: bs) /\ varint n bs.
Proof.
  intros Hn. rewrite emitBinary_IntLiteral. unfold BigInt. rewrite Hn. cbn [bind].
  destruct (encodeInt_varint (Z.to_N (Z.abs n)) (n <? 0) Wr.new) as (rest & E & Hrest).
  rewrite Z2N.id in E, Hrest by lia. cbn [Wr.new buffer app] in E.
  eexists. split; [now rewrite E|]. exists rest. auto.
Qed.

(** Every integer has a text: its decimal text denotes it. *)

Lemma uintDigits_lt10 (u : Decimal.uint) : Forall (fun d => (d < 10)%N) (uintDigits u).
Proof. induction u; constructor; (reflexivity || assumption). Qed.

Lemma radixDigit_digitChar (d : N) : (d < 10)%N -> radixDigit 10 (0x30 + d) = Some d.
Proof.
  intros Hd. unfold radixDigit, digitValue.
  destruct (N.leb_spec 0x30 (0x30 + d)); [|lia].
  destruct (N.leb_spec (0x30 + d) 0x39); [|lia]. cbn [andb].
  replace (0x30 + d - 0x30)%N with d by lia.
  now destruct (N.ltb_spec d 10); [|lia].
Qed.

Lemma allDigits_digitChars (ds : list N) :
  Forall (fun d => (d < 10)%N) ds -> allDigits 10 (digitChars ds) = Some ds.
Proof.
  induction 1 as [|d ds Hd _ IH]; [reflexivity|].
  unfold digitChars in *. cbn [List.map allDigits].
  now rewrite radixDigit_digitChar, IH.
Qed.

Lemma digitsValue_acc (u : Decimal.uint) (acc : positive) :
  fold_left (fun a d => a * Z.of_N 10 + Z.of_N d) (uintDigits u) (Z.pos acc)
  = Z.pos (Pos.of_uint_acc u acc).
Proof.
  revert acc. induction u as [|u IH|u IH|u IH|u IH|u IH|u IH|u IH|u IH|u IH|u IH];
    intros acc; cbn [uintDigits fold_left Pos.of_uint_acc]; [reflexivity|..].
  all: rewrite <- IH; f_equal; lia.
Qed.

Lemma digitsValue_uint (u : Decimal.uint) :
  digitsValue 10 (uintDigits u) = Z.of_N (Pos.of_uint u).
Proof.
  unfold digitsValue.
  induction u as [|u IH|u IH|u IH|u IH|u IH|u IH|u IH|u IH|u IH|u IH];
    cbn [uintDigits fold_left Pos.of_uint]; [reflexivity|exact IH|..].
  all: cbn [Z.of_N]; rewrite <- digitsValue_acc; reflexivity.
Qed.

Lemma nonEmptyDigits_uint (u : Decimal.uint) :
  u <> Decimal.Nil ->
  nonEmptyDigits 10 (digitChars (uintDigits u)) = Some (Z.of_N (Pos.of_uint u)).
Proof.
  intros Hu. unfold nonEmptyDigits.
  rewrite allDigits_digitChars by apply uintDigits_lt10.
  cbn [fmap option_fmap option_map]. rewrite digitsValue_uint.
  now destruct u.
Qed.

Lemma isWhiteSpace_digitChar (d : N) : (d < 10)%N -> isWhiteSpace (0x30 + d) = false.
Proof.
  intros Hd. unfold isWhiteSpace.
  repeat match goal with
         | |- context [(?a <=? ?b)%N] => destruct (N.leb_spec a b); try lia
         | |- context [(?a =? ?b)%N] => destruct (N.eqb_spec a b); try lia
         end.
  all: reflexivity.
Qed.

Lemma trim_id (s : jsstring) :
  Forall (fun c => isWhiteSpace c = false) s -> trim s = s.
Proof.
  intros Hs.
  assert (Hstart : forall t, Forall (fun c => isWhiteSpace c = false) t -> trimStart t = t).
  { intros [|c t] Ht; [reflexivity|]. apply Forall_cons in Ht as [Hc _].
    cbn [trimStart]. now rewrite Hc. }
  unfold trim. rewrite (Hstart s Hs), Hstart, rev_involutive; [reflexivity|].
  apply Forall_forall. intros c Hc. rewrite Forall_forall in Hs.
  apply Hs. apply list_elem_of_In. apply list_elem_of_In, in_rev in Hc. exact Hc.
Qed.

Lemma digitChars_noWhiteSpace (u : Decimal.uint) :
  Forall (fun c => isWhiteSpace c = false) (digitChars (uintDigits u)).
Proof.
  unfold digitChars. apply Forall_fmap.
  eapply Forall_impl; [apply uintDigits_lt10|]. apply isWhiteSpace_digitChar.
Qed.

Lemma StringToBigInt_digitChars (u : Decimal.uint) :
  u <> Decimal.Nil ->
  StringToBigInt (digitChars (uintDigits u)) = Some (Z.of_N (Pos.of_uint u)).
Proof.
  intros Hu. rewrite <- nonEmptyDigits_uint by assumption.
  unfold StringToBigInt. rewrite trim_id by apply digitChars_noWhiteSpace.
  destruct u as [|u|u|u|u|u|u|u|u|u|u]; [contradiction|..]; try reflexivity.
  destruct u; reflexivity.
Qed.

Lemma StringToBigInt_decimalText (n : Z) : StringToBigInt (decimalText n) = Some n.
Proof.
  unfold decimalText. destruct n as [|p|p]; cbn [Z.to_int]; [reflexivity|..].
  - rewrite StringToBigInt_digitChars by apply Unsigned.to_uint_nonnil.
    now rewrite DecimalPos.Unsigned.of_to.
  - unfold StringToBigInt. rewrite trim_id.
    2:{ constructor; [reflexivity|apply digitChars_noWhiteSpace]. }
    rewrite nonEmptyDigits_uint by apply Unsigned.to_uint_nonnil.
    now rewrite DecimalPos.Unsigned.of_to.
Qed.

Lemma emitBinary_decimalText (n : Z) :
  exists bs, emitBinary (IntLiteral (decimalText n)) = Ok (0 :: bs) /\ varint n bs.
Proof. apply emitBinary_IntLiteral_varint, StringToBigInt_decimalText. Qed.

(** C2.  An integer node whose text denotes [n] encodes as the tag byte 0
    followed by the sign-magnitude base-128 varint of [n]: the first body
    byte has the low 6 bits of [|n|] in bits 0-5, bit 6 set iff [n < 0],
    bit 7 set iff [|n| >> 6] is not zero; byte [k] after it carries the
    next 7 bits of the magnitude, with bit 7 set iff more remain, and the
    bytes stop exactly when nothing remains; [n = 0] gives the single body
    byte 0.  Every integer is the value of a node, the one of its decimal
    text.  In particular 0, 1 and -1 encode to [00 00], [00 01] and
    [00 41]. *)
Theorem C2_integer_varint (int : jsstring) (n : Z) :
  StringToBigInt int = Some n ->
  (exists first rest,
      emitBinary (IntLiteral int) = Ok (0 :: first :: rest)
      /\ varint n (first :: rest)
      /\ Z.land first 63 = Z.land (Z.abs n) 63
      /\ Z.testbit first 6 = (n <? 0)
      /\ Z.testbit first 7 = negb (Z.shiftr (Z.abs n) 6 =? 0)
      /\ (forall (k : nat) (b : Z),
             rest !! k = Some b ->
             Z.land b 127 = Z.land (Z.shiftr (Z.abs n) (6 + 7 * Z.of_nat k)) 127
             /\ Z.testbit b 7
                = negb (Z.shiftr (Z.abs n) (6 + 7 * (Z.of_nat k + 1)) =? 0)
             /\ Z.shiftr (Z.abs n) (6 + 7 * Z.of_nat k) <> 0)
      /\ Z.shiftr (Z.abs n) (6 + 7 * Z.of_nat (length rest)) = 0
      /\ (n = 0 -> first = 0 /\ rest = []))
  /\ StringToBigInt (decimalText n) = Some n
  /\ emitBinary (IntLiteral (lit "0")) = Ok [0x00; 0x00]
  /\ emitBinary (IntLiteral (lit "1")) = Ok [0x00; 0x01]
  /\ emitBinary (IntLiteral (lit "-1")) = Ok [0x00; 0x41].
Proof.
  intros Hn. split; [|split; [apply StringToBigInt_decimalText|]].
  2:{ repeat split; vm_compute; reflexivity. }
  destruct (emitBinary_IntLiteral_varint int n Hn) as (bs & E & Hv).
  destruct Hv as (rest & -> & Hrest).
  exists (firstByte (n <? 0) (Z.abs n)), rest.
  destruct (firstByte_bits (n <? 0) (Z.abs n)) as (B1 & B2 & B3).
  destruct (varintTail_bits _ _ Hrest) as [Hk Hlen].
  assert (Hsh : forall j, 0 <= j ->
                  Z.shiftr (Z.abs n / 64) j = Z.shiftr (Z.abs n) (6 + j)).
  { intros j Hj. change 64 with (2 ^ 6). rewrite <- Z.shiftr_div_pow2 by lia.
    now rewrite Z.shiftr_shiftr by lia. }
  split; [exact E|]. split; [exists rest; auto|].
  split; [exact B1|]. split; [exact B2|]. split; [exact B3|].
  split; [|split].
  - intros k b Hb. destruct (Hk k b Hb) as (E1 & E2 & E3).
    now rewrite !Hsh in E1, E2, E3 by lia.
  - now rewrite Hsh in Hlen by lia.
  - intros ->. change (Z.abs 0 / 64) with 0 in Hrest.
    inversion Hrest as [|m bs Hm]; [now split|]. now destruct Hm.
Qed.

Lemma C2_integer_varint_witness :
  StringToBigInt (lit "-300") = Some (-300)
  /\ exists first rest,
       emitBinary (IntLiteral (lit "-300")) = Ok (0 :: first :: rest)
       /\ varint (-300) (first :: rest)
       /\ Z.land first 63 = Z.land (Z.abs (-300)) 63
       /\ Z.testbit first 6 = (-300 <? 0)
       /\ Z.testbit first 7 = negb (Z.shiftr (Z.abs (-300)) 6 =? 0)
       /\ (forall (k : nat) (b : Z),
              rest !! k = Some b ->
              Z.land b 127
              = Z.land (Z.shiftr (Z.abs (-300)) (6 + 7 * Z.of_nat k)) 127
              /\ Z.testbit b 7
                 = negb (Z.shiftr (Z.abs (-300)) (6 + 7 * (Z.of_nat k + 1)) =? 0)
              /\ Z.shiftr (Z.abs (-300)) (6 + 7 * Z.of_nat k) <> 0)
       /\ Z.shiftr (Z.abs (-300)) (6 + 7 * Z.of_nat (length rest)) = 0
       /\ (-300 = 0 -> first = 0 /\ rest = []).
Proof.
  split; [reflexivity|].
  exact (proj1 (C2_integer_varint (lit "-300") (-300) eq_refl)).
Defined.

Example emitBinary_minus_300 :
  emitBinary (IntLiteral (lit "-300")) = Ok [0x00; 0xEC; 0x04].
Proof. vm_compute. reflexivity. Qed.

(** ** C9: negative zero *)

(** C9.  The text "-0" denotes the integer zero and encodes as [00 00]; more
    generally a text whose magnitude is zero encodes as [00 00], so the sign
    bit 0x40 is never set in an encoding whose magnitude is zero. *)
Theorem C9_negative_zero :
  StringToBigInt (lit "-0") = Some 0
  /\ emitBinary (IntLiteral (lit "-0")) = Ok [0x00; 0x00]
  /\ (forall (int : jsstring) (n : Z),
         StringToBigInt int = Some n -> Z.abs n = 0 ->
         emitBinary (IntLiteral int) = Ok [0x00; 0x00])
  /\ (forall (int : jsstring) (first : Z) (rest : list Z),
         emitBinary (IntLiteral int) = Ok (0 :: first :: rest) ->
         Z.testbit first 6 = true ->
         exists n, StringToBigInt int = Some n /\ n < 0 /\ Z.abs n <> 0).
Proof.
  split; [reflexivity|]. split; [vm_compute; reflexivity|]. split.
  - intros int n Hn Hz. assert (n = 0) as -> by lia.
    destruct (emitBinary_IntLiteral_varint int 0 Hn) as (bs & E & rest & -> & Hrest).
    change (Z.abs 0 / 64) with 0 in Hrest.
    inversion Hrest as [|m bs Hm]; [subst; exact E|]. now destruct Hm.
  - intros int first rest E Hbit.
    destruct (StringToBigInt int) as [n|] eqn:Hn.
    + exists n. split; [reflexivity|].
      destruct (emitBinary_IntLiteral_varint int n Hn) as (bs & E' & rest' & -> & _).
      rewrite E in E'. injection E' as -> _.
      destruct (firstByte_bits (n <? 0) (Z.abs n)) as (_ & B2 & _).
      rewrite B2 in Hbit. apply Z.ltb_lt in Hbit. lia.
    + rewrite emitBinary_IntLiteral in E. unfold BigInt in E. rewrite Hn in E.
      discriminate.
Qed.

Lemma C9_negative_zero_witness :
  StringToBigInt (lit "-0") = Some 0
  /\ Z.abs 0 = 0
  /\ emitBinary (IntLiteral (lit "-0")) = Ok [0x00; 0x00].
Proof.
  split; [reflexivity|]. split; [reflexivity|].
  exact (proj1 (proj2 (proj2 C9_negative_zero)) (lit "-0") 0 eq_refl eq_refl).
Defined.

(** ** C4: sequences *)

Lemma emitBinary_Sequence (items : list Expr) :
  emitBinary (Sequence items)
  = let* bs := emitList items in
    Ok (2 :: uint32be (Z.of_nat (length bs)) ++ bs).
Proof.
  unfold emitBinary. cbn [encodeBinary]. unfold encodeSequence.
  rewrite for_of_emit. destruct (emitList items) as [bs|] eqn:E; cbn [bind]; [|reflexivity].
  cbn [Wr.new buffer app]. unfold Wr.length. cbn [buffer].
  rewrite writeBytes_buffer, writeUint32_buffer, writeUint8_buffer
    by (eapply emitList_bytes, E).
  reflexivity.
Qed.

Lemma emitList_concat (items : list Expr) (cs : list (list Z)) :
  Forall2 (fun e c => emitBinary e = Ok c) items cs ->
  emitList items = Ok (concat cs).
Proof.
  induction 1 as [|e c items cs He _ IH]; cbn [emitList concat]; [reflexivity|].
  now rewrite He, IH.
Qed.

(** C4.  A sequence whose children encode to [cs] encodes as the tag byte
    2, the total length of [cs] as a 4-byte big-endian integer, and the
    children's encodings in order (the buffer of the children is an array,
    so it holds fewer than 2^32 bytes); the empty sequence encodes as
    [02 00 00 00 00], and the sequence of the integers 1 and 2 as
    [02 00 00 00 04 00 01 00 02]. *)
Theorem C4_sequence (items : list Expr) (cs : list (list Z)) :
  Forall2 (fun e c => emitBinary e = Ok c) items cs ->
  Z.of_nat (length (concat cs)) < 2 ^ 32 ->
  (exists len4,
      emitBinary (Sequence items) = Ok (2 :: len4 ++ concat cs)
      /\ length len4 = 4%nat /\ bytes len4
      /\ beValue len4 = Z.of_nat (length (concat cs)))
  /\ emitBinary (Sequence []) = Ok [0x02; 0x00; 0x00; 0x00; 0x00]
  /\ emitBinary (Sequence [IntLiteral (lit "1"); IntLiteral (lit "2")])
     = Ok [0x02; 0x00; 0x00; 0x00; 0x04; 0x00; 0x01; 0x00; 0x02].
Proof.
  intros Hcs Hlen. split; [|split; vm_compute; reflexivity].
  exists (uint32be (Z.of_nat (length (concat cs)))).
  rewrite emitBinary_Sequence, (emitList_concat _ _ Hcs). cbn [bind].
  split; [reflexivity|]. split; [reflexivity|]. split; [apply uint32be_bytes|].
  apply beValue_uint32be. lia.
Qed.

Lemma C4_sequence_witness :
  Forall2 (fun e c => emitBinary e = Ok c)
    [StringLiteral (lit "abc"); Sequence []; IntLiteral (lit "-300")]
    [[1; 0; 0; 0; 3; 97; 98; 99]; [2; 0; 0; 0; 0]; [0; 236; 4]]
  /\ Z.of_nat 16 < 2 ^ 32
  /\ exists len4,
       emitBinary (Sequence [StringLiteral (lit "abc"); Sequence [];
                             IntLiteral (lit "-300")])
       = Ok (2 :: len4 ++ [1; 0; 0; 0; 3; 97; 98; 99; 2; 0; 0; 0; 0; 0; 236; 4])
       /\ length len4 = 4%nat /\ bytes len4 /\ beValue len4 = 16.
Proof.
  assert (H : Forall2 (fun e c => emitBinary e = Ok c)
    [StringLiteral (lit "abc"); Sequence []; IntLiteral (lit "-300")]
    [[1; 0; 0; 0; 3; 97; 98; 99]; [2; 0; 0; 0; 0]; [0; 236; 4]])
    by (repeat constructor; vm_compute; reflexivity).
  split; [exact H|]. split; [reflexivity|].
  exact (proj1 (C4_sequence _ _ H eq_refl)).
Defined.

(** ** C7: byte strings *)

Lemma isHexDigit_cases (c : N) :
  isHexDigit c = true ->
  In c [0x30; 0x31; 0x32; 0x33; 0x34; 0x35; 0x36; 0x37; 0x38; 0x39;
        0x41; 0x42; 0x43; 0x44; 0x45; 0x46;
        0x61; 0x62; 0x63; 0x64; 0x65; 0x66]%N.
Proof.
  intros H. assert (Hlt : (c < 128)%N).
  { unfold isHexDigit in H.
    destruct (N.leb_spec c 0x39), (N.leb_spec c 0x46), (N.leb_spec c 0x66);
      try lia; rewrite ?andb_false_r in H; discriminate. }
  destruct c as [|p]; [discriminate|].
  do 7 (try destruct p as [p|p|]); try discriminate H; cbn; try tauto;
    exfalso; clear H; revert Hlt; clear; intros Hlt; destruct p; discriminate.
Qed.

Lemma parseInt16_pair (a b : N) :
  isHexDigit a = true -> isHexDigit b = true ->
  band (parseInt16 [a; b]) (Num 0xff) = 16 * hexValue a + hexValue b.
Proof.
  intros Ha%isHexDigit_cases Hb%isHexDigit_cases.
  cbn [In] in Ha, Hb.
  repeat (destruct Ha as [<-|Ha]; [|]); try contradiction;
    repeat (destruct Hb as [<-|Hb]; [|]); try contradiction;
    vm_compute; reflexivity.
Qed.

Lemma pair_ind {A} (P : list A -> Prop) :
  P [] -> (forall a, P [a]) -> (forall a b l, P l -> P (a :: b :: l)) ->
  forall l, P l.
Proof.
  intros H0 H1 H2. fix IH 1. intros [|a [|b l]]; [exact H0|apply H1|].
  apply H2, IH.
Qed.

Lemma hexBytes_cons2 (a b : N) (hex : jsstring) :
  hexBytes (a :: b :: hex) = (16 * hexValue a + hexValue b) :: hexBytes hex.
Proof.
  unfold hexBytes. cbn [length].
  replace (S (S (length hex)) / 2)%nat with (S (length hex / 2)).
  2:{ change (S (S (length hex))) with (1 * 2 + length hex)%nat.
      now rewrite Nat.div_add_l by lia. }
  cbn [seq List.map]. f_equal.
  rewrite <- seq_shift, List.map_map. apply List.map_ext. intros k.
  unfold hexPair. replace (2 * S k)%nat with (S (S (2 * k))) by lia.
  reflexivity.
Qed.

Lemma slices2_hex (hex : jsstring) :
  forallb isHexDigit hex = true -> Nat.Even (length hex) ->
  List.map (fun v => band v (Num 0xff)) (List.map parseInt16 (slices2 hex))
  = hexBytes hex
  /\ length (slices2 hex) = (length hex / 2)%nat.
Proof.
  induction hex as [|a|a b hex IH] using pair_ind; intros Hd Hev.
  - split; reflexivity.
  - destruct Hev as [k Hk]. cbn [length] in Hk. lia.
  - cbn [forallb] in Hd. apply andb_true_iff in Hd as [Ha Hd].
    apply andb_true_iff in Hd as [Hb Hd].
    destruct IH as [IH1 IH2]; [assumption| |].
    { destruct Hev as [k Hk]. cbn [length] in Hk. exists (k - 1)%nat. lia. }
    rewrite hexBytes_cons2. cbn [slices2 List.map length].
    rewrite IH1, IH2, parseInt16_pair by assumption. split; [reflexivity|].
    change (S (S (length hex))) with (1 * 2 + length hex)%nat.
    now rewrite Nat.div_add_l by lia.
Qed.

Lemma emitBinary_BytesLiteral (hex : jsstring) :
  emitBinary (BytesLiteral hex)
  = Ok (10 :: uint32be (Z.of_nat (length (slices2 hex)))
           ++ List.map (fun v => band v (Num 0xff))
                (List.map parseInt16 (slices2 hex))).
Proof.
  unfold emitBinary. cbn [encodeBinary bind]. f_equal.
  unfold Wr.writeBytes. cbn [buffer].
  rewrite writeUint32_buffer, writeUint8_buffer, List.length_map.
  reflexivity.
Qed.

(** C7.  A byte-string node whose text is an even number of hexadecimal
    digits encodes as the tag byte 10, half the length of the text as a
    4-byte big-endian integer (the decoded bytes are an array, so there are
    fewer than 2^32 of them), and the decoded bytes, the [k]-th being the
    value of the [k]-th pair of digits; "0a0b" encodes as
    [0A 00 00 00 02 0A 0B]. *)
Theorem C7_bytes (hex : jsstring) :
  forallb isHexDigit hex = true ->
  Nat.Even (length hex) ->
  Z.of_nat (length hex / 2) < 2 ^ 32 ->
  (exists len4 decoded,
      emitBinary (BytesLiteral hex) = Ok (10 :: len4 ++ decoded)
      /\ length len4 = 4%nat /\ bytes len4
      /\ beValue len4 = Z.of_nat (length hex / 2)
      /\ length decoded = (length hex / 2)%nat
      /\ forall k : nat,
           (k < length hex / 2)%nat ->
           decoded !! k
           = Some (16 * hexValue (nth (2 * k) hex 0%N)
                   + hexValue (nth (2 * k + 1) hex 0%N)))
  /\ emitBinary (BytesLiteral (lit "0a0b"))
     = Ok [0x0A; 0x00; 0x00; 0x00; 0x02; 0x0A; 0x0B].
Proof.
  intros Hd Hev Hlen. split; [|vm_compute; reflexivity].
  destruct (slices2_hex hex Hd Hev) as [E1 E2].
  exists (uint32be (Z.of_nat (length hex / 2))), (hexBytes hex).
  rewrite emitBinary_BytesLiteral, E1, E2.
  split; [reflexivity|]. split; [reflexivity|]. split; [apply uint32be_bytes|].
  split; [apply beValue_uint32be; lia|].
  unfold hexBytes. split; [now rewrite List.length_map, length_seq|].
  intros k Hk. rewrite list_lookup_fmap, lookup_seq_lt by assumption.
  reflexivity.
Qed.

Lemma C7_bytes_witness :
  forallb isHexDigit (lit "dEadBEef00") = true
  /\ Nat.Even (length (lit "dEadBEef00"))
  /\ Z.of_nat (length (lit "dEadBEef00") / 2) < 2 ^ 32
  /\ exists len4 decoded,
       emitBinary (BytesLiteral (lit "dEadBEef00")) = Ok (10 :: len4 ++ decoded)
       /\ length len4 = 4%nat /\ bytes len4
       /\ beValue len4 = Z.of_nat (length (lit "dEadBEef00") / 2)
       /\ length decoded = (length (lit "dEadBEef00") / 2)%nat
       /\ forall k : nat,
            (k < length (lit "dEadBEef00") / 2)%nat ->
            decoded !! k
            = Some (16 * hexValue (nth (2 * k) (lit "dEadBEef00") 0%N)
                    + hexValue (nth (2 * k + 1) (lit "dEadBEef00") 0%N)).
Proof.
  assert (Hev : Nat.Even (length (lit "dEadBEef00"))) by (exists 5%nat; reflexivity).
  split; [reflexivity|]. split; [exact Hev|]. split; [reflexivity|].
  exact (proj1 (C7_bytes (lit "dEadBEef00") eq_refl Hev eq_refl)).
Defined.

Example emitBinary_deadbeef :
  emitBinary (BytesLiteral (lit "dEadBEef00"))
  = Ok [0x0A; 0x00; 0x00; 0x00; 0x05; 0xDE; 0xAD; 0xBE; 0xEF; 0x00].
Proof. vm_compute. reflexivity. Qed.

(** ** C6: annotations *)

Lemma codePoints_cons (c : N) (s : jsstring) :
  codePoints (c :: s)
  = if isLead c then
      match s with
      | d :: s' =>
          if isTrail d
          then (0x10000 + N.shiftl (c - 0xD800) 10 + (d - 0xDC00))%N :: codePoints s'
          else 0xFFFD%N :: codePoints s
      | [] => [0xFFFD%N]
      end
    else if isTrail c then 0xFFFD%N :: codePoints s
    else c :: codePoints s.
Proof. reflexivity. Qed.

Lemma codePoints_space (s t : jsstring) :
  codePoints (s ++ 0x20%N :: t) = codePoints s ++ 0x20%N :: codePoints t.
Proof.
  remember (length s) as n eqn:Hn. revert s Hn.
  induction n as [n IH] using lt_wf_ind. intros [|c [|d s]] Hn.
  - reflexivity.
  - cbn [app codePoints]. destruct (isLead c); [reflexivity|].
    destruct (isTrail c); reflexivity.
  - cbn [length] in Hn.
    assert (IH1 : codePoints ((d :: s) ++ 0x20%N :: t)
                  = codePoints (d :: s) ++ 0x20%N :: codePoints t)
      by (apply (IH (length (d :: s))); [cbn [length]; lia|reflexivity]).
    assert (IH2 : codePoints (s ++ 0x20%N :: t)
                  = codePoints s ++ 0x20%N :: codePoints t)
      by (apply (IH (length s)); [lia|reflexivity]).
    rewrite (codePoints_cons c (d :: s)).
    change ((c :: d :: s) ++ 0x20%N :: t) with (c :: (d :: s) ++ 0x20%N :: t).
    rewrite (codePoints_cons c ((d :: s) ++ 0x20%N :: t)), IH1.
    change ((d :: s) ++ 0x20%N :: t) with (d :: (s ++ 0x20%N :: t)).
    cbv iota. rewrite IH2.
    destruct (isLead c); [destruct (isTrail d)|destruct (isTrail c)]; reflexivity.
Qed.

Lemma TextEncoder_encode_space (s t : jsstring) :
  TextEncoder_encode (s ++ lit " " ++ t)
  = TextEncoder_encode s ++ [32] ++ TextEncoder_encode t.
Proof.
  unfold TextEncoder_encode. change (lit " " ++ t) with (0x20%N :: t).
  rewrite codePoints_space, List.map_app, List.concat_app, List.map_app.
  reflexivity.
Qed.

(** Joining then encoding is encoding then joining with the byte 32. *)
Lemma annotText_join (annots : list jsstring) :
  annotText annots = join [32] (List.map TextEncoder_encode annots).
Proof.
  unfold annotText. induction annots as [|a [|b l] IH]; [reflexivity..|].
  change (join (lit " ") (a :: b :: l)) with (a ++ lit " " ++ join (lit " ") (b :: l)).
  rewrite TextEncoder_encode_space, IH. reflexivity.
Qed.

(** C6.  For an application with at least one annotation, after the tag
    byte, the primitive index and the argument encodings comes the length,
    as a 4-byte big-endian integer, of the UTF-8 encoding of the
    annotations joined with a single space in their order, and then that
    UTF-8 text, which ends the encoding (the text is copied into an array,
    so it has fewer than 2^32 bytes). *)
Theorem C6_annotations (name : jsstring) (args : option (list Expr))
    (annots : list jsstring) (bs : list Z) :
  annots <> [] ->
  emitBinary (Prim name args (Some annots)) = Ok bs ->
  let text := TextEncoder_encode (join (lit " ") annots) in
  Z.of_nat (length text) < 2 ^ 32 ->
  exists tag idx argBytes len4,
    bs = tag :: idx :: argBytes ++ len4 ++ text
    /\ tag = compactTag (argCount args) true mod 256
    /\ idx = primByte (primTag name)
    /\ emitArgs args = Ok argBytes
    /\ (exists tag', emitBinary (Prim name args None) = Ok (tag' :: idx :: argBytes))
    /\ length len4 = 4%nat /\ bytes len4
    /\ beValue len4 = Z.of_nat (length text)
    /\ text = join [32] (List.map TextEncoder_encode annots).
Proof.
  intros Hne Hemit text Hlen.
  rewrite emitBinary_Prim in Hemit.
  assert (Hnone := emitBinary_Prim name args None).
  destruct (primTag name) as [|idx|] eqn:Hidx; [discriminate| |].
  all: destruct (emitArgs args) as [argBytes|]; cbn [bind] in Hemit, Hnone;
    [|discriminate].
  all: injection Hemit as <-.
  all: destruct annots as [|a l]; [contradiction|].
  all: cbn [annotBlock app] in *; rewrite app_nil_r in Hnone.
  all: eexists _, _, argBytes, (uint32be (Z.of_nat (length text))).
  all: split; [reflexivity|].
  all: split; [now rewrite primTagOf_compact|].
  all: split; [reflexivity|].
  all: split; [reflexivity|].
  all: split; [eexists; exact Hnone|].
  all: split; [reflexivity|].
  all: split; [apply uint32be_bytes|].
  all: split; [apply beValue_uint32be; lia|apply annotText_join].
Qed.

Lemma C6_annotations_witness :
  [lit "%a"; lit ":b"] <> []
  /\ emitBinary (Prim (lit "Pair") (Some [IntLiteral (lit "1")])
                   (Some [lit "%a"; lit ":b"]))
     = Ok [6; 7; 0; 1; 0; 0; 0; 5; 37; 97; 32; 58; 98]
  /\ Z.of_nat (length (TextEncoder_encode (join (lit " ") [lit "%a"; lit ":b"])))
     < 2 ^ 32
  /\ exists tag idx argBytes len4,
       [6; 7; 0; 1; 0; 0; 0; 5; 37; 97; 32; 58; 98]
       = tag :: idx :: argBytes ++ len4
           ++ TextEncoder_encode (join (lit " ") [lit "%a"; lit ":b"])
       /\ tag = compactTag (argCount (Some [IntLiteral (lit "1")])) true mod 256
       /\ idx = primByte (primTag (lit "Pair"))
       /\ emitArgs (Some [IntLiteral (lit "1")]) = Ok argBytes
       /\ (exists tag',
              emitBinary (Prim (lit "Pair") (Some [IntLiteral (lit "1")]) None)
              = Ok (tag' :: idx :: argBytes))
       /\ length len4 = 4%nat /\ bytes len4
       /\ beValue len4
          = Z.of_nat (length (TextEncoder_encode
                                (join (lit " ") [lit "%a"; lit ":b"])))
       /\ TextEncoder_encode (join (lit " ") [lit "%a"; lit ":b"])
          = join [32] (List.map TextEncoder_encode [lit "%a"; lit ":b"]).
Proof.
  assert (Hne : [lit "%a"; lit ":b"] <> []) by discriminate.
  assert (Hemit : emitBinary (Prim (lit "Pair") (Some [IntLiteral (lit "1")])
                   (Some [lit "%a"; lit ":b"]))
     = Ok [6; 7; 0; 1; 0; 0; 0; 5; 37; 97; 32; 58; 98]) by (vm_compute; reflexivity).
  split; [exact Hne|]. split; [exact Hemit|]. split; [reflexivity|].
  exact (C6_annotations _ _ _ _ Hne Hemit eq_refl).
Defined.

(** ** C5: the primitive index *)

(** C5.  The byte after the tag byte is the position of the name in the
    primitive table; [Pair] is at position 7 and [PAIR] at position 66, so
    that [PAIR] alone encodes as [03 42] and [Pair 1 2] as
    [07 07 00 01 00 02]. *)
Theorem C5_primitive_index (name : jsstring) (i : nat)
    (args : option (list Expr)) (annots : option (list jsstring)) (bs : list Z) :
  primitives !! i = Some name ->
  emitBinary (Prim name args annots) = Ok bs ->
  (exists tag rest, bs = tag :: Z.of_nat i :: rest)
  /\ primitives !! 7%nat = Some (lit "Pair")
  /\ primitives !! 66%nat = Some (lit "PAIR")
  /\ primTag (lit "Pair") = VNumber 7
  /\ primTag (lit "PAIR") = VNumber 0x42
  /\ emitBinary (Prim (lit "PAIR") None None) = Ok [0x03; 0x42]
  /\ emitBinary (Prim (lit "Pair")
                   (Some [IntLiteral (lit "1"); IntLiteral (lit "2")]) None)
     = Ok [0x07; 0x07; 0x00; 0x01; 0x00; 0x02].
Proof.
  intros Hi Hemit. split; [|repeat split; vm_compute; reflexivity].
  assert (Hidx : primTag name = VNumber (Z.of_nat i))
    by (apply primTag_number, primTags_spec; eauto).
  rewrite emitBinary_Prim, Hidx in Hemit.
  destruct (emitArgs args) as [argBytes|]; cbn [bind] in Hemit; [|discriminate].
  injection Hemit as <-. cbn [app primByte].
  apply lookup_lt_Some in Hi. rewrite primitives_length in Hi.
  rewrite (Z.mod_small (Z.of_nat i)) by lia. eauto.
Qed.

Lemma C5_primitive_index_witness :
  primitives !! 114%nat = Some (lit "EMPTY_BIG_MAP")
  /\ emitBinary (Prim (lit "EMPTY_BIG_MAP")
                   (Some [Prim (lit "nat") None None;
                          Prim (lit "string") None None]) None)
     = Ok [7; 114; 3; 98; 3; 104]
  /\ exists tag rest, [7; 114; 3; 98; 3; 104] = tag :: Z.of_nat 114 :: rest.
Proof.
  assert (Hemit : emitBinary (Prim (lit "EMPTY_BIG_MAP")
                   (Some [Prim (lit "nat") None None;
                          Prim (lit "string") None None]) None)
     = Ok [7; 114; 3; 98; 3; 104]) by (vm_compute; reflexivity).
  split; [reflexivity|]. split; [exact Hemit|].
  exact (proj1 (C5_primitive_index _ 114 _ _ _ eq_refl Hemit)).
Defined.

(** ** C8: absent and empty lists *)

(** C8.  An application encodes the same with its annotation list absent
    or empty, and with its argument list absent or empty, whatever the
    writer holds. *)
Theorem C8_absent_or_empty (name : jsstring) (args : option (list Expr))
    (annots : option (list jsstring)) (wr : Writer) :
  encodeBinary (Prim name args None) wr = encodeBinary (Prim name args (Some [])) wr
  /\ encodeBinary (Prim name None annots) wr
     = encodeBinary (Prim name (Some []) annots) wr
  /\ emitBinary (Prim name args None) = emitBinary (Prim name args (Some []))
  /\ emitBinary (Prim name None annots) = emitBinary (Prim name (Some []) annots)
  /\ primTagOf args None = primTagOf args (Some [])
  /\ primTagOf None annots = primTagOf (Some []) annots
  /\ encodeAnnots (Some []) wr = wr.
Proof.
  repeat split; unfold emitBinary; cbn [encodeBinary];
    destruct (primTag name); reflexivity.
Qed.

(** ** C10: only bytes are written *)

(** C10.  Every element of the sequence that [emitBinary] returns is
    between 0 and 255: each operation of the writer appends masked values
    only, so a buffer of bytes stays a buffer of bytes after every write. *)
Theorem C10_byte_range (e : Expr) (bs : list Z) :
  emitBinary e = Ok bs ->
  Forall (fun b => 0 <= b <= 255) bs
  /\ (forall val wr, exists b,
         buffer (Wr.writeUint8 val wr) = buffer wr ++ [b] /\ 0 <= b <= 255)
  /\ (forall val wr, exists b1 b0,
         buffer (Wr.writeUint16 val wr) = buffer wr ++ [b1; b0]
         /\ 0 <= b1 <= 255 /\ 0 <= b0 <= 255)
  /\ (forall val wr, exists b3 b2 b1 b0,
         buffer (Wr.writeUint32 val wr) = buffer wr ++ [b3; b2; b1; b0]
         /\ 0 <= b3 <= 255 /\ 0 <= b2 <= 255 /\ 0 <= b1 <= 255 /\ 0 <= b0 <= 255)
  /\ (forall val wr, exists l,
         buffer (Wr.writeBytes val wr) = buffer wr ++ l
         /\ length l = length val /\ Forall (fun b => 0 <= b <= 255) l)
  /\ (forall val wr,
         Wr.writeInt8 val wr = Wr.writeUint8 val wr
         /\ Wr.writeInt16 val wr = Wr.writeUint16 val wr
         /\ Wr.writeInt32 val wr = Wr.writeUint32 val wr).
Proof.
  intros Hemit. split; [exact (emitBinary_bytes e bs Hemit)|].
  split; [|split; [|split; [|split]]].
  - intros val wr. eexists. split; [now wr_norm|apply land_255_byte].
  - intros val wr. eexists _, _. split; [now wr_norm|].
    split; apply land_255_byte.
  - intros val wr. eexists _, _, _, _. split; [now wr_norm|].
    repeat split; apply land_255_byte.
  - intros val wr. eexists. split; [reflexivity|].
    split; [apply List.length_map|apply writeBytes_bytes].
  - intros val wr. repeat split.
Qed.

Lemma C10_byte_range_witness :
  emitBinary (Prim (lit "Pair")
                (Some [IntLiteral (lit "-300"); BytesLiteral (lit "-1zz");
                       StringLiteral (lit "abc")])
                (Some [lit "%a"]))
  = Ok [10; 7; 2; 0; 0; 0; 18; 0; 236; 4; 10; 0; 0; 0; 2; 255; 0; 1; 0; 0; 0;
        3; 97; 98; 99; 0; 0; 0; 2; 37; 97]
  /\ Forall (fun b => 0 <= b <= 255)
       [10; 7; 2; 0; 0; 0; 18; 0; 236; 4; 10; 0; 0; 0; 2; 255; 0; 1; 0; 0; 0;
        3; 97; 98; 99; 0; 0; 0; 2; 37; 97].
Proof.
  assert (Hemit : emitBinary (Prim (lit "Pair")
                (Some [IntLiteral (lit "-300"); BytesLiteral (lit "-1zz");
                       StringLiteral (lit "abc")])
                (Some [lit "%a"]))
  = Ok [10; 7; 2; 0; 0; 0; 18; 0; 236; 4; 10; 0; 0; 0; 2; 255; 0; 1; 0; 0; 0;
        3; 97; 98; 99; 0; 0; 0; 2; 37; 97]) by (vm_compute; reflexivity).
  split; [exact Hemit|].
  exact (proj1 (C10_byte_range _ _ Hemit)).
Defined.

(** ** C3: unknown primitives *)

(** C3 (the code at the failing input).  [toString] is not in the primitive
    table, yet looking it up in [primTags] finds the method inherited from
    [Object.prototype] instead of [undefined]: nothing is thrown and the
    index byte written is 0, the index of [parameter]. *)
Theorem C3_inherited_name_not_rejected :
  (lit "toString" ∉ primitives)
  /\ primTags !! lit "toString" = None
  /\ primTag (lit "toString") = VObject
  /\ emitBinary (Prim (lit "toString") None None) = Ok [0x03; 0x00]
  /\ emitBinary (Prim (lit "parameter") None None) = Ok [0x03; 0x00]
  /\ emitBinary (Prim (lit "no_such_primitive") None None)
     = Throw (TypeError (lit "no_such_primitive")).
Proof.
  split; [apply (bool_decide_unpack _); vm_compute; exact I|].
  repeat split; vm_compute; reflexivity.
Qed.

(** What the guard [prim === undefined] does on a whole tree. *)

Lemma emitList_settled (l : list Expr) :
  Forall (fun e => Forall numeric (intTexts e) -> settled (emitBinary e) (primNames e)) l ->
  Forall numeric (flat_map intTexts l) ->
  settled (emitList l) (flat_map primNames l).
Proof.
  induction 1 as [|x l Hx _ IH]; cbn [flat_map emitList]; intros Hnum.
  - left. eexists. split; [reflexivity|constructor].
  - apply Forall_app in Hnum as [Hnx Hnl].
    destruct (Hx Hnx) as [(b & -> & Hdef)|(nm & -> & Hin & Hun)]; cbn [bind].
    + destruct (IH Hnl) as [(bs & -> & Hdefl)|(nm & -> & Hin & Hun)]; cbn [bind].
      * left. eexists. split; [reflexivity|]. apply Forall_app. auto.
      * right. exists nm. rewrite elem_of_app. auto.
    + right. exists nm. rewrite elem_of_app. auto.
Qed.

Lemma emitBinary_settled (e : Expr) :
  Forall numeric (intTexts e) -> settled (emitBinary e) (primNames e).
Proof.
  induction e as [int|str|hex|items IH|name args annots IH] using Expr_nested_ind;
    intros Hnum.
  - left. apply Forall_cons in Hnum as [[n Hn] _].
    destruct (emitBinary_IntLiteral_varint int n Hn) as (bs & -> & _).
    eexists. split; [reflexivity|constructor].
  - left. eexists. split; [reflexivity|constructor].
  - left. eexists. split; [reflexivity|constructor].
  - rewrite emitBinary_Sequence. cbn [primNames intTexts] in *.
    destruct (emitList_settled items IH Hnum)
      as [(bs & -> & Hdef)|(nm & -> & Hin & Hun)]; cbn [bind].
    + left. eauto.
    + right. eauto.
  - rewrite emitBinary_Prim. cbn [primNames].
    assert (Hargs : settled (emitArgs args)
                      match args with Some a => flat_map primNames a | None => [] end).
    { destruct args as [a|]; cbn [emitArgs intTexts] in *.
      - rewrite emitBinary_Sequence.
        destruct (emitList_settled a (IH a eq_refl) Hnum)
          as [(bs & E & Hdef)|(nm & E & Hin & Hun)]; rewrite E;
          destruct (_ <? _)%nat; cbn [bind]; [left; eauto..|right; eauto|right; eauto].
      - left. eexists. split; [reflexivity|constructor]. }
    destruct (primTag name) as [|idx|] eqn:Hname.
    + right. exists name. split; [reflexivity|]. split; [apply list_elem_of_here|assumption].
    + destruct Hargs as [(bs & -> & Hdef)|(nm & -> & Hin & Hun)]; cbn [bind].
      * left. eexists. split; [reflexivity|]. constructor; [congruence|assumption].
      * right. exists nm. split; [reflexivity|]. split; [now apply list_elem_of_further|assumption].
    + destruct Hargs as [(bs & -> & Hdef)|(nm & -> & Hin & Hun)]; cbn [bind].
      * left. eexists. split; [reflexivity|]. constructor; [congruence|assumption].
      * right. exists nm. split; [reflexivity|]. split; [now apply list_elem_of_further|assumption].
Qed.

(** On a tree whose integer texts are numeric, the encoder throws its
    [TypeError] exactly when some name of the tree is neither in the
    primitive table nor a property name of [Object.prototype]; with every
    name in the table it returns bytes. *)
Lemma emitBinary_TypeError_iff (e : Expr) :
  Forall numeric (intTexts e) ->
  ((exists nm, emitBinary e = Throw (TypeError nm))
   <-> exists nm, nm ∈ primNames e /\ (nm ∉ primitives) /\ (nm ∉ ObjectPrototype))
  /\ (Forall (fun nm => nm ∈ primitives) (primNames e) ->
      exists bs, emitBinary e = Ok bs).
Proof.
  intros Hnum.
  destruct (emitBinary_settled e Hnum) as [(bs & E & Hdef)|(nm & E & Hin & Hun)];
    rewrite E.
  - split; [split|eauto].
    + intros [nm [=]].
    + intros (nm & Hin & Hun). exfalso.
      rewrite Forall_forall in Hdef. apply (Hdef nm Hin).
      now apply primTag_undefined.
  - split; [split|].
    + intros _. exists nm. split; [assumption|]. now apply primTag_undefined.
    + eauto.
    + intros Hall. exfalso. rewrite Forall_forall in Hall.
      apply primTag_undefined in Hun as [Hun _]. apply Hun, Hall, Hin.
Qed.

(** ** The scenarios of the format description *)

Example emitBinary_string_abc :
  emitBinary (StringLiteral (lit "abc"))
  = Ok [0x01; 0x00; 0x00; 0x00; 0x03; 0x61; 0x62; 0x63].
Proof. vm_compute. reflexivity. Qed.

(** A lone surrogate is encoded as U+FFFD, a pair as one code point. *)
Example emitBinary_string_surrogates :
  emitBinary (StringLiteral [0xD83D; 0xDE00; 0xDC00; 0xE9]%N)
  = Ok [0x01; 0x00; 0x00; 0x00; 0x09;
        0xF0; 0x9F; 0x98; 0x80; 0xEF; 0xBF; 0xBD; 0xC3; 0xA9].
Proof. vm_compute. reflexivity. Qed.

(** Three arguments: the body is the argument list encoded as a sequence,
    and with an annotation the tag byte is 10, the tag of a byte string. *)
Example emitBinary_three_arguments :
  emitBinary (Prim (lit "Pair")
                (Some [IntLiteral (lit "1"); IntLiteral (lit "2");
                       IntLiteral (lit "3")])
                (Some [lit "%a"]))
  = Ok [0x0A; 0x07; 0x02; 0x00; 0x00; 0x00; 0x06; 0x00; 0x01; 0x00; 0x02;
        0x00; 0x03; 0x00; 0x00; 0x00; 0x02; 0x25; 0x61].
Proof. vm_compute. reflexivity. Qed.

(** Texts that [BigInt] accepts or rejects. *)
Example BigInt_texts :
  StringToBigInt (lit " 0x1F ") = Some 31
  /\ StringToBigInt (lit "") = Some 0
  /\ StringToBigInt (lit "-0x1") = None
  /\ StringToBigInt (lit "1e3") = None
  /\ emitBinary (IntLiteral (lit "12a")) = Throw (SyntaxError (lit "12a")).
Proof. repeat split. Qed.

(** Malformed hexadecimal text is not rejected. *)
Example emitBinary_malformed_hex :
  emitBinary (BytesLiteral (lit "-1zz0x7"))
  = Ok [0x0A; 0x00; 0x00; 0x00; 0x04; 0xFF; 0x00; 0x00; 0x07].
Proof. vm_compute. reflexivity. Qed.

(** * Further properties of the encoder *)

(** ** The byte sink *)

Lemma beValue_app (l : list Z) (b : Z) : beValue (l ++ [b]) = beValue l * 256 + b.
Proof. unfold beValue. now rewrite fold_left_app. Qed.

Lemma mod_split (z b c : Z) :
  0 < b -> 0 < c -> z mod (b * c) = z mod b + b * ((z / b) mod c).
Proof. intros Hb Hc. apply Z.rem_mul_r; lia. Qed.

Lemma beValue_uint32be_mod (z : Z) : beValue (uint32be z) = z mod 2 ^ 32.
Proof.
  unfold beValue, uint32be. cbn [fold_left].
  change (2 ^ 32) with (256 * (256 * (256 * 256))).
  rewrite (mod_split z 256 (256 * (256 * 256))) by lia.
  rewrite (mod_split (z / 256) 256 (256 * 256)) by lia.
  rewrite (mod_split (z / 256 / 256) 256 256) by lia.
  rewrite !Z.div_div by lia.
  change (2 ^ 8) with 256. change (2 ^ 16) with (256 * 256).
  change (2 ^ 24) with (256 * 256 * 256). lia.
Qed.

(** X9.  Each write of the sink appends the low bytes of its argument, most
    significant first: one byte worth [z mod 2^8], two bytes worth
    [z mod 2^16], four bytes worth [z mod 2^32], for every integer [z]; a
    negative argument is thus written in two's complement, and the signed
    writes are the unsigned ones.  [NaN] is written as zero bytes. *)
Theorem X9_writer_big_endian (z : Z) (wr : Writer) :
  (exists b8 b16 b32,
      buffer (Wr.writeUint8 (Num z) wr) = buffer wr ++ b8
      /\ length b8 = 1%nat /\ bytes b8 /\ beValue b8 = z mod 2 ^ 8
      /\ buffer (Wr.writeUint16 (Num z) wr) = buffer wr ++ b16
      /\ length b16 = 2%nat /\ bytes b16 /\ beValue b16 = z mod 2 ^ 16
      /\ buffer (Wr.writeUint32 (Num z) wr) = buffer wr ++ b32
      /\ length b32 = 4%nat /\ bytes b32 /\ beValue b32 = z mod 2 ^ 32
      /\ buffer (Wr.writeInt8 (Num z) wr) = buffer wr ++ b8
      /\ buffer (Wr.writeInt16 (Num z) wr) = buffer wr ++ b16
      /\ buffer (Wr.writeInt32 (Num z) wr) = buffer wr ++ b32)
  /\ buffer (Wr.writeUint8 NaN wr) = buffer wr ++ [0]
  /\ buffer (Wr.writeUint16 NaN wr) = buffer wr ++ [0; 0]
  /\ buffer (Wr.writeUint32 NaN wr) = buffer wr ++ [0; 0; 0; 0].
Proof.
  split; [|repeat split; unfold Wr.writeUint16, Wr.writeUint32, Wr.push;
           cbn [buffer]; now rewrite <- ?app_assoc].
  exists [z mod 256], [(z / 2 ^ 8) mod 256; z mod 256], (uint32be z).
  unfold Wr.writeInt8, Wr.writeInt16, Wr.writeInt32.
  rewrite writeUint8_buffer, writeUint16_buffer, writeUint32_buffer.
  assert (H16 : beValue [(z / 2 ^ 8) mod 256; z mod 256] = z mod 2 ^ 16).
  { unfold beValue. cbn [fold_left]. change (2 ^ 8) with 256.
    change (2 ^ 16) with (256 * 256). rewrite (mod_split z 256 256) by lia. lia. }
  assert (B8 : bytes [z mod 256]) by (repeat constructor; apply mod_256_byte).
  assert (B16 : bytes [(z / 2 ^ 8) mod 256; z mod 256])
    by (repeat constructor; apply mod_256_byte).
  pose proof (uint32be_bytes z) as B32.
  pose proof (beValue_uint32be_mod z) as H32.
  repeat split; assumption || reflexivity.
Qed.

(** ** Strings *)

Lemma codePoints_ascii (s : jsstring) :
  Forall (fun c => (c < 0x80)%N) s -> codePoints s = s.
Proof.
  induction 1 as [|c s Hc _ IH]; [reflexivity|].
  rewrite codePoints_cons, IH. unfold isLead, isTrail.
  destruct (N.leb_spec 0xD800 c); [lia|].
  destruct (N.leb_spec 0xDC00 c); [lia|]. reflexivity.
Qed.

Lemma TextEncoder_ascii (s : jsstring) :
  Forall (fun c => (c < 0x80)%N) s -> TextEncoder_encode s = List.map Z.of_N s.
Proof.
  intros Hs. unfold TextEncoder_encode. rewrite codePoints_ascii by assumption.
  f_equal. induction Hs as [|c s Hc _ IH]; [reflexivity|].
  cbn [List.map List.concat]. rewrite IH. unfold utf8CodePoint.
  now destruct (N.ltb_spec c 0x80); [|lia].
Qed.

Lemma emitBinary_StringLiteral (str : jsstring) :
  emitBinary (StringLiteral str)
  = Ok (1 :: uint32be (Z.of_nat (length (TextEncoder_encode str)))
          ++ TextEncoder_encode str).
Proof.
  unfold emitBinary. cbn [encodeBinary bind]. f_equal.
  rewrite writeBytes_buffer, writeUint32_buffer, writeUint8_buffer
    by apply TextEncoder_bytes.
  reflexivity.
Qed.

(** X1.  A string node never fails: it encodes as the tag byte 1, the
    length of the UTF-8 text on four bytes, most significant first, and
    the UTF-8 text (copied into an array, so shorter than 2^32 bytes); for
    a string of ASCII characters the text is the characters themselves. *)
Theorem X1_string_layout (str : jsstring) :
  let text := TextEncoder_encode str in
  Z.of_nat (length text) < 2 ^ 32 ->
  exists len4,
    emitBinary (StringLiteral str) = Ok (1 :: len4 ++ text)
    /\ length len4 = 4%nat /\ bytes len4
    /\ beValue len4 = Z.of_nat (length text)
    /\ bytes text
    /\ (Forall (fun c => (c < 0x80)%N) str -> text = List.map Z.of_N str).
Proof.
  intros text Hlen. exists (uint32be (Z.of_nat (length text))).
  split; [|split; [reflexivity|split; [apply uint32be_bytes|split;
           [apply beValue_uint32be; lia|split;
            [apply TextEncoder_bytes|apply TextEncoder_ascii]]]]].
  apply emitBinary_StringLiteral.
Qed.

Lemma X1_string_layout_witness :
  Z.of_nat (length (TextEncoder_encode (lit "tz1"))) < 2 ^ 32
  /\ exists len4,
       emitBinary (StringLiteral (lit "tz1"))
       = Ok (1 :: len4 ++ TextEncoder_encode (lit "tz1"))
       /\ length len4 = 4%nat /\ bytes len4
       /\ beValue len4 = Z.of_nat (length (TextEncoder_encode (lit "tz1")))
       /\ bytes (TextEncoder_encode (lit "tz1"))
       /\ (Forall (fun c => (c < 0x80)%N) (lit "tz1") ->
           TextEncoder_encode (lit "tz1") = List.map Z.of_N (lit "tz1")).
Proof.
  split; [reflexivity|]. exact (X1_string_layout (lit "tz1") eq_refl).
Defined.

(** ** Encoding into a writer *)

(** X2.  [encodeBinary] only appends: when it returns, the writer holds
    what it held before followed by the bytes that [emitBinary] returns for
    the expression, and these bytes do not depend on the writer. *)
Theorem X2_encode_appends (e : Expr) (wr wr' : Writer) :
  encodeBinary e wr = Ok wr' ->
  exists bs,
    emitBinary e = Ok bs
    /\ buffer wr' = buffer wr ++ bs
    /\ forall wr2, encodeBinary e wr2 = Ok (mkWriter (buffer wr2 ++ bs)).
Proof.
  intros H. rewrite encodeBinary_emit in H.
  destruct (emitBinary e) as [bs|] eqn:E; cbn [bind] in H; [|discriminate].
  injection H as <-. exists bs. split; [reflexivity|]. split; [reflexivity|].
  intros wr2. now rewrite encodeBinary_emit, E.
Qed.

Lemma X2_encode_appends_witness :
  encodeBinary (Prim (lit "Some") (Some [IntLiteral (lit "5")]) None)
    (mkWriter [0xAA; 0xBB])
  = Ok (mkWriter [0xAA; 0xBB; 5; 9; 0; 5])
  /\ exists bs,
       emitBinary (Prim (lit "Some") (Some [IntLiteral (lit "5")]) None) = Ok bs
       /\ [0xAA; 0xBB; 5; 9; 0; 5] = [0xAA; 0xBB] ++ bs
       /\ forall wr2,
            encodeBinary (Prim (lit "Some") (Some [IntLiteral (lit "5")]) None) wr2
            = Ok (mkWriter (buffer wr2 ++ bs)).
Proof.
  assert (H : encodeBinary (Prim (lit "Some") (Some [IntLiteral (lit "5")]) None)
                (mkWriter [0xAA; 0xBB])
              = Ok (mkWriter [0xAA; 0xBB; 5; 9; 0; 5])) by (vm_compute; reflexivity).
  split; [exact H|]. exact (X2_encode_appends _ _ _ H).
Defined.

(** X14.  An exception passes through unchanged: when [emitBinary] throws
    on an expression, [encodeBinary] throws the same exception on it
    whatever the writer holds, and conversely. *)
Theorem X14_exception_independent (e : Expr) (wr : Writer) (x : exn) :
  encodeBinary e wr = Throw x <-> emitBinary e = Throw x.
Proof.
  rewrite encodeBinary_emit. destruct (emitBinary e); cbn [bind]; split; congruence.
Qed.

(** ** Integers *)

Lemma emitBinary_IntLiteral_Ok (int : jsstring) (bs : list Z) :
  emitBinary (IntLiteral int) = Ok bs ->
  exists n rest,
    StringToBigInt int = Some n
    /\ bs = 0 :: firstByte (n <? 0) (Z.abs n) :: rest
    /\ varintTail (Z.abs n / 64) rest.
Proof.
  intros H. destruct (StringToBigInt int) as [n|] eqn:Hn.
  - destruct (emitBinary_IntLiteral_varint int n Hn) as (bs' & E & rest & -> & Hrest).
    rewrite H in E. injection E as ->. eauto.
  - rewrite emitBinary_IntLiteral in H. unfold BigInt in H. rewrite Hn in H.
    discriminate.
Qed.

Lemma nextByte_mod (m : Z) : nextByte m mod 128 = m mod 128.
Proof.
  destruct (nextByte_bits m) as [H _]. change 127 with (Z.ones 7) in H.
  now rewrite !Z.land_ones in H by lia.
Qed.

Lemma firstByte_mod (sign : bool) (m : Z) : firstByte sign m mod 64 = m mod 64.
Proof.
  destruct (firstByte_bits sign m) as [H _]. change 63 with (Z.ones 6) in H.
  now rewrite !Z.land_ones in H by lia.
Qed.

(** The magnitude that a tail denotes. *)
Lemma varintTail_value (m : Z) (rest : list Z) :
  varintTail m rest ->
  m = fold_right (fun b acc => b mod 128 + 128 * acc) 0 rest.
Proof.
  induction 1 as [|m bs Hm _ IH]; [reflexivity|].
  cbn [fold_right]. rewrite <- IH, nextByte_mod.
  pose proof (Z.div_mod m 128). lia.
Qed.

Lemma varintTail_nonneg (m : Z) (rest : list Z) : varintTail m rest -> 0 <= m.
Proof.
  induction 1 as [|m bs Hm _ IH]; [lia|].
  pose proof (Z.div_mod m 128). pose proof (Z.mod_pos_bound m 128). lia.
Qed.

(** X4.  The integer can be computed back from its encoding: its sign is
    bit 6 of the first body byte and its magnitude is the low 6 bits of
    that byte followed by the low 7 bits of each later byte, least
    significant group first. *)
Theorem X4_integer_recovered (int : jsstring) (n first : Z) (rest : list Z) :
  StringToBigInt int = Some n ->
  emitBinary (IntLiteral int) = Ok (0 :: first :: rest) ->
  n = (if Z.testbit first 6 then -1 else 1)
      * (first mod 64
         + 64 * fold_right (fun b acc => b mod 128 + 128 * acc) 0 rest).
Proof.
  intros Hn Hemit.
  destruct (emitBinary_IntLiteral_Ok _ _ Hemit) as (n' & rest' & Hn' & E & Htl).
  rewrite Hn in Hn'. injection Hn' as <-. injection E as -> ->.
  destruct (firstByte_bits (n <? 0) (Z.abs n)) as (_ & -> & _).
  rewrite firstByte_mod, <- (varintTail_value _ _ Htl).
  pose proof (Z.div_mod (Z.abs n) 64).
  destruct (Z.ltb_spec n 0); lia.
Qed.

Lemma X4_integer_recovered_witness :
  StringToBigInt (lit "-1000000") = Some (-1000000)
  /\ emitBinary (IntLiteral (lit "-1000000")) = Ok [0; 0xC0; 0x89; 0x7A]
  /\ -1000000
     = (if Z.testbit 0xC0 6 then -1 else 1)
       * (0xC0 mod 64
          + 64 * fold_right (fun b acc => b mod 128 + 128 * acc) 0 [0x89; 0x7A]).
Proof.
  assert (H : emitBinary (IntLiteral (lit "-1000000")) = Ok [0; 0xC0; 0x89; 0x7A])
    by (vm_compute; reflexivity).
  split; [reflexivity|]. split; [exact H|].
  exact (X4_integer_recovered (lit "-1000000") _ _ _ eq_refl H).
Defined.

(** X17.  The integer encoding is injective: two texts with the same
    encoding denote the same integer. *)
Theorem X17_integer_injective (a b : jsstring) (na nb : Z) (bs : list Z) :
  StringToBigInt a = Some na ->
  StringToBigInt b = Some nb ->
  emitBinary (IntLiteral a) = Ok bs ->
  emitBinary (IntLiteral b) = Ok bs ->
  na = nb.
Proof.
  intros Ha Hb Ea Eb.
  destruct (emitBinary_IntLiteral_Ok _ _ Ea) as (na' & ra & Ha' & E1 & Hra).
  destruct (emitBinary_IntLiteral_Ok _ _ Eb) as (nb' & rb & Hb' & E2 & Hrb).
  rewrite Ha in Ha'. rewrite Hb in Hb'. injection Ha' as <-. injection Hb' as <-.
  rewrite E1 in E2. injection E2 as Hfirst Hrest. subst rb.
  assert (Hdiv : Z.abs na / 64 = Z.abs nb / 64)
    by (rewrite (varintTail_value _ _ Hra), (varintTail_value _ _ Hrb); reflexivity).
  assert (Hmod : Z.abs na mod 64 = Z.abs nb mod 64)
    by (rewrite <- (firstByte_mod (na <? 0)), Hfirst; apply firstByte_mod).
  assert (Hsign : (na <? 0) = (nb <? 0)).
  { destruct (firstByte_bits (na <? 0) (Z.abs na)) as (_ & <- & _).
    destruct (firstByte_bits (nb <? 0) (Z.abs nb)) as (_ & <- & _).
    now rewrite Hfirst. }
  pose proof (Z.div_mod (Z.abs na) 64). pose proof (Z.div_mod (Z.abs nb) 64).
  destruct (Z.ltb_spec na 0), (Z.ltb_spec nb 0); try discriminate; lia.
Qed.

Lemma X17_integer_injective_witness :
  StringToBigInt (lit " 0x10 ") = Some 16
  /\ StringToBigInt (lit "+016") = Some 16
  /\ emitBinary (IntLiteral (lit " 0x10 ")) = Ok [0; 16]
  /\ emitBinary (IntLiteral (lit "+016")) = Ok [0; 16]
  /\ 16 = 16.
Proof.
  assert (Ha : emitBinary (IntLiteral (lit " 0x10 ")) = Ok [0; 16])
    by (vm_compute; reflexivity).
  assert (Hb : emitBinary (IntLiteral (lit "+016")) = Ok [0; 16])
    by (vm_compute; reflexivity).
  split; [reflexivity|]. split; [reflexivity|]. split; [exact Ha|]. split; [exact Hb|].
  exact (X17_integer_injective (lit " 0x10 ") (lit "+016") 16 16 [0; 16]
           eq_refl eq_refl Ha Hb).
Defined.

(** The shape of a tail that is not empty. *)
Lemma varintTail_last (m : Z) (rest : list Z) :
  varintTail m rest -> m <> 0 ->
  exists init last,
    rest = init ++ [last]
    /\ Forall (fun b => Z.testbit b 7 = true) init
    /\ Z.testbit last 7 = false /\ last <> 0.
Proof.
  induction 1 as [|m bs Hm Htl IH]; [congruence|]. intros _.
  destruct (nextByte_bits m) as [_ Hbit].
  rewrite Z.shiftr_div_pow2 in Hbit by lia. change (2 ^ 7) with 128 in Hbit.
  destruct (Z.eq_dec (m / 128) 0) as [E|E].
  - rewrite E in Htl, Hbit. inversion Htl as [|? ? Hne]; [|congruence]. subst.
    exists [], (nextByte m). split; [reflexivity|]. split; [constructor|].
    split; [exact Hbit|]. unfold nextByte. rewrite E. cbn.
    pose proof (Z.div_mod m 128). lia.
  - destruct (IH E) as (init & last & -> & Hinit & Hlast & Hne).
    exists (nextByte m :: init), last. split; [reflexivity|].
    split; [|auto]. constructor; [|assumption].
    rewrite Hbit. now destruct (Z.eqb_spec (m / 128) 0).
Qed.

(** X5.  The bytes of an integer are self-delimiting and minimal: every
    body byte but the last has the continuation bit 0x80 set, the last has
    it clear, and when there is more than one body byte the last is not
    zero. *)
Theorem X5_integer_continuation (int : jsstring) (bs : list Z) :
  emitBinary (IntLiteral int) = Ok bs ->
  exists body last,
    bs = 0 :: body ++ [last]
    /\ Forall (fun b => Z.testbit b 7 = true) body
    /\ Z.testbit last 7 = false
    /\ (body <> [] -> last <> 0).
Proof.
  intros Hemit.
  destruct (emitBinary_IntLiteral_Ok _ _ Hemit) as (n & rest & _ & -> & Htl).
  destruct (firstByte_bits (n <? 0) (Z.abs n)) as (_ & _ & Hbit).
  rewrite Z.shiftr_div_pow2 in Hbit by lia. change (2 ^ 6) with 64 in Hbit.
  destruct (Z.eq_dec (Z.abs n / 64) 0) as [E|E].
  - rewrite E in Htl, Hbit. inversion Htl as [|? ? Hne]; [|congruence]. subst.
    exists [], (firstByte (n <? 0) (Z.abs n)). split; [reflexivity|].
    split; [constructor|]. split; [exact Hbit|congruence].
  - destruct (varintTail_last _ _ Htl E) as (init & last & -> & Hinit & Hlast & Hne).
    exists (firstByte (n <? 0) (Z.abs n) :: init), last. split; [reflexivity|].
    split; [|auto]. constructor; [|assumption].
    rewrite Hbit. now destruct (Z.eqb_spec (Z.abs n / 64) 0).
Qed.

Lemma X5_integer_continuation_witness :
  emitBinary (IntLiteral (lit "-1000000")) = Ok [0; 0xC0; 0x89; 0x7A]
  /\ exists body last,
       [0; 0xC0; 0x89; 0x7A] = 0 :: body ++ [last]
       /\ Forall (fun b => Z.testbit b 7 = true) body
       /\ Z.testbit last 7 = false
       /\ (body <> [] -> last <> 0).
Proof.
  assert (H : emitBinary (IntLiteral (lit "-1000000")) = Ok [0; 0xC0; 0x89; 0x7A])
    by (vm_compute; reflexivity).
  split; [exact H|]. exact (X5_integer_continuation _ _ H).
Defined.

(** The magnitudes that have a tail of a given length. *)
Lemma varintTail_size (m : Z) (rest : list Z) :
  varintTail m rest ->
  match rest with
  | [] => m = 0
  | _ :: r => 128 ^ Z.of_nat (length r) <= m < 128 ^ Z.of_nat (S (length r))
  end.
Proof.
  induction 1 as [|m bs Hm Htl IH]; [reflexivity|].
  pose proof (varintTail_nonneg _ _ Htl) as Hq.
  pose proof (Z.div_mod m 128 ltac:(lia)) as Hdm.
  pose proof (Z.mod_pos_bound m 128 ltac:(lia)) as Hr.
  destruct bs as [|b r].
  - rewrite IH in Hdm. cbn [length]. change (128 ^ Z.of_nat 0) with 1.
    change (128 ^ Z.of_nat 1) with 128. lia.
  - cbn [length] in *. rewrite !Nat2Z.inj_succ, !Z.pow_succ_r in * by lia. lia.
Qed.

(** X11.  The size of an integer encoding: two bytes below 64 in
    magnitude, and [2 + k] bytes for a magnitude from [64 * 128^(k-1)] up
    to, and not including, [64 * 128^k]. *)
Theorem X11_integer_size (int : jsstring) (n : Z) (bs : list Z) :
  StringToBigInt int = Some n ->
  emitBinary (IntLiteral int) = Ok bs ->
  exists k : nat,
    length bs = (2 + k)%nat
    /\ (k = 0%nat -> Z.abs n < 64)
    /\ (k <> 0%nat ->
        64 * 128 ^ (Z.of_nat k - 1) <= Z.abs n < 64 * 128 ^ Z.of_nat k).
Proof.
  intros Hn Hemit.
  destruct (emitBinary_IntLiteral_Ok _ _ Hemit) as (n' & rest & Hn' & -> & Htl).
  rewrite Hn in Hn'. injection Hn' as <-.
  exists (length rest). split; [reflexivity|].
  pose proof (varintTail_size _ _ Htl) as Hsz.
  pose proof (Z.div_mod (Z.abs n) 64 ltac:(lia)) as Hdm.
  pose proof (Z.mod_pos_bound (Z.abs n) 64 ltac:(lia)) as Hr.
  destruct rest as [|b r]; cbn [length] in *.
  - split; [lia|congruence].
  - split; [discriminate|]. intros _.
    replace (Z.of_nat (S (length r)) - 1) with (Z.of_nat (length r)) by lia. lia.
Qed.

Lemma X11_integer_size_witness :
  StringToBigInt (lit "-1000000") = Some (-1000000)
  /\ emitBinary (IntLiteral (lit "-1000000")) = Ok [0; 0xC0; 0x89; 0x7A]
  /\ exists k : nat,
       length [0; 0xC0; 0x89; 0x7A] = (2 + k)%nat
       /\ (k = 0%nat -> Z.abs (-1000000) < 64)
       /\ (k <> 0%nat ->
           64 * 128 ^ (Z.of_nat k - 1) <= Z.abs (-1000000) < 64 * 128 ^ Z.of_nat k).
Proof.
  assert (H : emitBinary (IntLiteral (lit "-1000000")) = Ok [0; 0xC0; 0x89; 0x7A])
    by (vm_compute; reflexivity).
  split; [reflexivity|]. split; [exact H|].
  exact (X11_integer_size (lit "-1000000") _ _ eq_refl H).
Defined.

(** X10.  Negating an integer changes one bit of its encoding: the
    encoding of [- n] is that of [n > 0] with bit 6 of the first body byte
    set. *)
Theorem X10_integer_negation (a b : jsstring) (n : Z) :
  0 < n ->
  StringToBigInt a = Some n ->
  StringToBigInt b = Some (- n) ->
  exists first rest,
    emitBinary (IntLiteral a) = Ok (0 :: first :: rest)
    /\ emitBinary (IntLiteral b) = Ok (0 :: first + 64 :: rest)
    /\ Z.testbit first 6 = false.
Proof.
  intros Hpos Ha Hb.
  destruct (emitBinary_IntLiteral_varint a n Ha) as (bsa & Ea & ra & -> & Hra).
  destruct (emitBinary_IntLiteral_varint b (- n) Hb) as (bsb & Eb & rb & -> & Hrb).
  rewrite Z.abs_opp in *.
  rewrite (varintTail_functional _ _ _ Hrb Hra) in Eb.
  replace (n <? 0) with false in * by (symmetry; apply Z.ltb_ge; lia).
  replace (- n <? 0) with true in * by (symmetry; apply Z.ltb_lt; lia).
  exists (firstByte false (Z.abs n)), ra. split; [exact Ea|]. split.
  - rewrite Eb. do 3 f_equal. unfold firstByte. lia.
  - now destruct (firstByte_bits false (Z.abs n)) as (_ & -> & _).
Qed.

Lemma X10_integer_negation_witness :
  0 < 1000000
  /\ StringToBigInt (lit "1000000") = Some 1000000
  /\ StringToBigInt (lit "-1000000") = Some (- 1000000)
  /\ exists first rest,
       emitBinary (IntLiteral (lit "1000000")) = Ok (0 :: first :: rest)
       /\ emitBinary (IntLiteral (lit "-1000000")) = Ok (0 :: first + 64 :: rest)
       /\ Z.testbit first 6 = false.
Proof.
  split; [reflexivity|]. split; [reflexivity|]. split; [reflexivity|].
  exact (X10_integer_negation (lit "1000000") (lit "-1000000") 1000000
           eq_refl eq_refl eq_refl).
Defined.

(** ** The primitive table *)

(** X8.  Looking a name up in [primTags] and indexing [primitives] are
    inverse to each other: a name found with the number [idx] is the name at
    position [idx] of the table, no other name is found with that number,
    and the number fits in one byte. *)
Theorem X8_primTags_lookup (a b : jsstring) (idx : Z) :
  primTag a = VNumber idx ->
  primTag b = VNumber idx ->
  a = b
  /\ 0 <= idx <= 140
  /\ primitives !! Z.to_nat idx = Some a
  /\ (forall (i : nat) (name : jsstring),
         primitives !! i = Some name -> primTag name = VNumber (Z.of_nat i)).
Proof.
  intros Ha Hb.
  apply primTag_number in Ha, Hb.
  pose proof (primTags_index _ _ Ha) as Hidx.
  apply primTags_spec in Ha as (i & Hi & ->), Hb as (j & Hj & Hij).
  apply Nat2Z.inj in Hij. subst j. rewrite Hi in Hj. injection Hj as <-.
  split; [reflexivity|]. split; [lia|]. split; [now rewrite Nat2Z.id|].
  intros k name Hk. apply primTag_number, primTags_spec. eauto.
Qed.

Lemma X8_primTags_lookup_witness :
  primTag (lit "GET_AND_UPDATE") = VNumber 140
  /\ primTag (lit "GET_AND_UPDATE") = VNumber 140
  /\ lit "GET_AND_UPDATE" = lit "GET_AND_UPDATE"
  /\ 0 <= 140 <= 140
  /\ primitives !! Z.to_nat 140 = Some (lit "GET_AND_UPDATE")
  /\ (forall (i : nat) (name : jsstring),
         primitives !! i = Some name -> primTag name = VNumber (Z.of_nat i)).
Proof.
  assert (H : primTag (lit "GET_AND_UPDATE") = VNumber 140) by (vm_compute; reflexivity).
  split; [exact H|]. split; [exact H|].
  exact (X8_primTags_lookup _ _ _ H H).
Defined.

(** ** Applications and sequences *)

Lemma emitList_app (l1 l2 : list Expr) :
  emitList (l1 ++ l2)
  = let* a := emitList l1 in let* b := emitList l2 in Ok (a ++ b).
Proof.
  induction l1 as [|x l1 IH]; cbn [app emitList bind].
  - now destruct (emitList l2).
  - destruct (emitBinary x) as [c|]; cbn [bind]; [|reflexivity].
    rewrite IH. destruct (emitList l1) as [a|]; cbn [bind]; [|reflexivity].
    destruct (emitList l2) as [b|]; cbn [bind]; [|reflexivity].
    now rewrite app_assoc.
Qed.

(** X3.  The body of an application whose name is in the table and whose
    arguments encode: after the tag byte and the index byte come, for
    fewer than three arguments, the encodings of the arguments one after
    the other, and from three arguments on the encoding of the argument
    list as a sequence; the annotation block, if any, ends the encoding. *)
Theorem X3_application_body (name : jsstring) (idx : Z) (args : list Expr)
    (cs : list (list Z)) (annots : option (list jsstring)) :
  primTags !! name = Some idx ->
  Forall2 (fun e c => emitBinary e = Ok c) args cs ->
  let tag := compactTag (Z.of_nat (length args)) (annotated annots) mod 256 in
  ((length args < 3)%nat ->
   emitBinary (Prim name (Some args) annots)
   = Ok (tag :: idx :: concat cs ++ annotBlock annots))
  /\ ((3 <= length args)%nat ->
      exists sq,
        emitBinary (Sequence args) = Ok sq
        /\ emitBinary (Prim name (Some args) annots)
           = Ok (tag :: idx :: sq ++ annotBlock annots)).
Proof.
  intros Hidx Hcs tag.
  pose proof (primTags_index _ _ Hidx) as Hrange.
  apply primTag_number in Hidx.
  pose proof (emitList_concat _ _ Hcs) as Hlist.
  rewrite emitBinary_Prim, Hidx, primTagOf_compact. cbn [primByte argCount emitArgs].
  rewrite (Z.mod_small idx) by lia. fold tag.
  split; intros Hlen.
  - replace (length args <? 3)%nat with true by (symmetry; apply Nat.ltb_lt; lia).
    now rewrite Hlist.
  - replace (length args <? 3)%nat with false by (symmetry; apply Nat.ltb_ge; lia).
    rewrite emitBinary_Sequence, Hlist. cbn [bind]. eauto.
Qed.

Lemma X3_application_body_witness :
  primTags !! lit "Pair" = Some 7
  /\ Forall2 (fun e c => emitBinary e = Ok c)
       [IntLiteral (lit "1"); StringLiteral (lit "a"); Prim (lit "Unit") None None]
       [[0; 1]; [1; 0; 0; 0; 1; 97]; [3; 11]]
  /\ ((length [IntLiteral (lit "1"); StringLiteral (lit "a");
               Prim (lit "Unit") None None] < 3)%nat ->
      emitBinary (Prim (lit "Pair")
                    (Some [IntLiteral (lit "1"); StringLiteral (lit "a");
                           Prim (lit "Unit") None None]) None)
      = Ok (compactTag (Z.of_nat 3) (annotated None) mod 256 :: 7
              :: concat [[0; 1]; [1; 0; 0; 0; 1; 97]; [3; 11]] ++ annotBlock None))
  /\ ((3 <= length [IntLiteral (lit "1"); StringLiteral (lit "a");
                    Prim (lit "Unit") None None])%nat ->
      exists sq,
        emitBinary (Sequence [IntLiteral (lit "1"); StringLiteral (lit "a");
                              Prim (lit "Unit") None None]) = Ok sq
        /\ emitBinary (Prim (lit "Pair")
                         (Some [IntLiteral (lit "1"); StringLiteral (lit "a");
                                Prim (lit "Unit") None None]) None)
           = Ok (compactTag (Z.of_nat 3) (annotated None) mod 256 :: 7
                   :: sq ++ annotBlock None)).
Proof.
  assert (Hidx : primTags !! lit "Pair" = Some 7) by (vm_compute; reflexivity).
  assert (Hcs : Forall2 (fun e c => emitBinary e = Ok c)
       [IntLiteral (lit "1"); StringLiteral (lit "a"); Prim (lit "Unit") None None]
       [[0; 1]; [1; 0; 0; 0; 1; 97]; [3; 11]])
    by (repeat constructor; vm_compute; reflexivity).
  split; [exact Hidx|]. split; [exact Hcs|].
  exact (X3_application_body (lit "Pair") 7 _ _ None Hidx Hcs).
Defined.

Lemma emitBinary_Sequence_content (l : list Expr) (s : list Z) :
  emitBinary (Sequence l) = Ok s -> emitList l = Ok (drop 5 s).
Proof.
  rewrite emitBinary_Sequence. destruct (emitList l) as [c|]; cbn [bind]; [|discriminate].
  now intros [= <-].
Qed.

(** X13.  Sequences compose: the content of the encoding of [l1 ++ l2]
    (what follows its tag byte and its four length bytes) is the content
    of the encoding of [l1] followed by that of [l2], and its length field
    is written for the two together. *)
Theorem X13_sequence_append (l1 l2 : list Expr) (s1 s2 : list Z) :
  emitBinary (Sequence l1) = Ok s1 ->
  emitBinary (Sequence l2) = Ok s2 ->
  emitBinary (Sequence (l1 ++ l2))
  = Ok (2 :: uint32be (Z.of_nat (length (drop 5 s1 ++ drop 5 s2)))
          ++ drop 5 s1 ++ drop 5 s2).
Proof.
  intros H1%emitBinary_Sequence_content H2%emitBinary_Sequence_content.
  now rewrite emitBinary_Sequence, emitList_app, H1, H2.
Qed.

Lemma X13_sequence_append_witness :
  emitBinary (Sequence [IntLiteral (lit "1")]) = Ok [2; 0; 0; 0; 2; 0; 1]
  /\ emitBinary (Sequence [Sequence []; IntLiteral (lit "2")])
     = Ok [2; 0; 0; 0; 7; 2; 0; 0; 0; 0; 0; 2]
  /\ emitBinary (Sequence ([IntLiteral (lit "1")]
                           ++ [Sequence []; IntLiteral (lit "2")]))
     = Ok (2 :: uint32be (Z.of_nat (length (drop 5 [2; 0; 0; 0; 2; 0; 1]
                             ++ drop 5 [2; 0; 0; 0; 7; 2; 0; 0; 0; 0; 0; 2])))
             ++ drop 5 [2; 0; 0; 0; 2; 0; 1]
             ++ drop 5 [2; 0; 0; 0; 7; 2; 0; 0; 0; 0; 0; 2]).
Proof.
  assert (H1 : emitBinary (Sequence [IntLiteral (lit "1")]) = Ok [2; 0; 0; 0; 2; 0; 1])
    by (vm_compute; reflexivity).
  assert (H2 : emitBinary (Sequence [Sequence []; IntLiteral (lit "2")])
               = Ok [2; 0; 0; 0; 7; 2; 0; 0; 0; 0; 0; 2])
    by (vm_compute; reflexivity).
  split; [exact H1|]. split; [exact H2|].
  exact (X13_sequence_append _ _ _ _ H1 H2).
Defined.

(** X15.  The first child that fails decides: when the children before [e]
    encode and [e] throws, a sequence with these children throws the
    exception of [e], and so does an application with them as arguments
    whose name has a value in [primTags], whatever follows [e]. *)
Theorem X15_first_failure (pre post : list Expr) (e : Expr) (x : exn) :
  Forall (fun p => exists c, emitBinary p = Ok c) pre ->
  emitBinary e = Throw x ->
  emitBinary (Sequence (pre ++ e :: post)) = Throw x
  /\ forall name annots,
       primTag name <> VUndefined ->
       emitBinary (Prim name (Some (pre ++ e :: post)) annots) = Throw x.
Proof.
  intros Hpre He.
  assert (Hlist : emitList (pre ++ e :: post) = Throw x).
  { rewrite emitList_app. cbn [emitList]. rewrite He. cbn [bind].
    induction Hpre as [|p pre [c Hp] _ IH]; [reflexivity|].
    cbn [emitList]. rewrite Hp. cbn [bind].
    now destruct (emitList pre). }
  assert (Hseq : emitBinary (Sequence (pre ++ e :: post)) = Throw x)
    by now rewrite emitBinary_Sequence, Hlist.
  split; [exact Hseq|]. intros name annots Hname.
  rewrite emitBinary_Prim. cbn [emitArgs]. rewrite Hlist, Hseq.
  destruct (primTag name); [congruence|..]; now destruct (_ <? _)%nat.
Qed.

Lemma X15_first_failure_witness :
  Forall (fun p => exists c, emitBinary p = Ok c) [IntLiteral (lit "1")]
  /\ emitBinary (IntLiteral (lit "one")) = Throw (SyntaxError (lit "one"))
  /\ emitBinary (Sequence ([IntLiteral (lit "1")]
                           ++ IntLiteral (lit "one") :: [Prim (lit "nope") None None]))
     = Throw (SyntaxError (lit "one"))
  /\ forall name annots,
       primTag name <> VUndefined ->
       emitBinary (Prim name
                     (Some ([IntLiteral (lit "1")]
                            ++ IntLiteral (lit "one") :: [Prim (lit "nope") None None]))
                     annots)
       = Throw (SyntaxError (lit "one")).
Proof.
  assert (Hpre : Forall (fun p => exists c, emitBinary p = Ok c) [IntLiteral (lit "1")])
    by (repeat constructor; eexists; vm_compute; reflexivity).
  assert (He : emitBinary (IntLiteral (lit "one")) = Throw (SyntaxError (lit "one")))
    by (vm_compute; reflexivity).
  split; [exact Hpre|]. split; [exact He|].
  exact (X15_first_failure _ [Prim (lit "nope") None None] _ _ Hpre He).
Defined.

(** ** Success and failure of a whole tree *)

Lemma emitList_explained (l : list Expr) :
  Forall (fun e => explained (emitBinary e) (intTexts e) (primNames e)) l ->
  explained (emitList l) (flat_map intTexts l) (flat_map primNames l).
Proof.
  induction 1 as [|x l Hx _ IH]; cbn [flat_map emitList].
  - split; constructor.
  - unfold explained in *.
    destruct (emitBinary x) as [b|[nm|t]]; cbn [bind].
    + destruct Hx as [Hxi Hxn].
      destruct (emitList l) as [bs|[nm|t]]; cbn [bind].
      * destruct IH. split; apply Forall_app; auto.
      * destruct IH. split; [apply elem_of_app; auto|assumption].
      * destruct IH. split; [apply elem_of_app; auto|assumption].
    + destruct Hx. split; [apply elem_of_app; auto|assumption].
    + destruct Hx. split; [apply elem_of_app; auto|assumption].
Qed.

Lemma emitBinary_explained (e : Expr) :
  explained (emitBinary e) (intTexts e) (primNames e).
Proof.
  induction e as [int|str|hex|items IH|name args annots IH] using Expr_nested_ind.
  - rewrite emitBinary_IntLiteral. unfold BigInt, explained, numeric.
    cbn [intTexts primNames].
    destruct (StringToBigInt int) as [n|] eqn:Hn; cbn [bind].
    + split; repeat constructor. rewrite Hn. eauto.
    + split; [apply list_elem_of_here|assumption].
  - split; constructor.
  - split; constructor.
  - rewrite emitBinary_Sequence. cbn [intTexts primNames].
    pose proof (emitList_explained items IH) as H. unfold explained in *.
    now destruct (emitList items) as [bs|[nm|t]]; cbn [bind].
  - rewrite emitBinary_Prim.
    assert (Hargs : explained (emitArgs args)
                      (intTexts (Prim name args annots))
                      match args with Some a => flat_map primNames a | None => [] end).
    { destruct args as [a|]; cbn [emitArgs intTexts].
      - pose proof (emitList_explained a (IH a eq_refl)) as H.
        rewrite emitBinary_Sequence. unfold explained in *.
        destruct (emitList a) as [bs|[nm|t]]; destruct (_ <? _)%nat; cbn [bind];
          assumption.
      - split; constructor. }
    cbn [primNames]. unfold explained in *.
    destruct (primTag name) as [|idx|] eqn:Hname.
    + split; [apply list_elem_of_here|assumption].
    + destruct (emitArgs args) as [bs|[nm|t]]; cbn [bind]; destruct Hargs as [H1 H2].
      * split; [assumption|]. constructor; [congruence|assumption].
      * split; [now apply list_elem_of_further|assumption].
      * split; assumption.
    + destruct (emitArgs args) as [bs|[nm|t]]; cbn [bind]; destruct Hargs as [H1 H2].
      * split; [assumption|]. constructor; [congruence|assumption].
      * split; [now apply list_elem_of_further|assumption].
      * split; assumption.
Qed.

(** X7.  [emitBinary] returns bytes exactly when [BigInt] accepts the text
    of every integer node of the tree and every name of the tree has a
    value in [primTags].  Otherwise it throws, and the exception names the
    culprit: a [SyntaxError] carries an integer text of the tree that
    [BigInt] rejects, a [TypeError] a name of the tree without a value. *)
Theorem X7_outcome (e : Expr) :
  ((exists bs, emitBinary e = Ok bs)
   <-> Forall (fun t => is_Some (StringToBigInt t)) (intTexts e)
       /\ Forall (fun nm => primTag nm <> VUndefined) (primNames e))
  /\ (forall t, emitBinary e = Throw (SyntaxError t) ->
                t ∈ intTexts e /\ StringToBigInt t = None)
  /\ (forall nm, emitBinary e = Throw (TypeError nm) ->
                 nm ∈ primNames e /\ primTag nm = VUndefined).
Proof.
  pose proof (emitBinary_explained e) as H. unfold explained in H.
  split; [split|split].
  - intros [bs E]. now rewrite E in H.
  - intros [Hnum Hdef].
    destruct (emitBinary_settled e Hnum) as [(bs & E & _)|(nm & E & Hin & Hun)];
      [eauto|].
    rewrite Forall_forall in Hdef. now destruct (Hdef nm Hin).
  - intros t E. now rewrite E in H.
  - intros nm E. now rewrite E in H.
Qed.

Lemma X7_outcome_witness :
  Forall (fun t => is_Some (StringToBigInt t))
    (intTexts (Prim (lit "Pair") (Some [IntLiteral (lit "1"); IntLiteral (lit "2")]) None))
  /\ Forall (fun nm => primTag nm <> VUndefined)
       (primNames (Prim (lit "Pair")
                     (Some [IntLiteral (lit "1"); IntLiteral (lit "2")]) None))
  /\ exists bs,
       emitBinary (Prim (lit "Pair")
                     (Some [IntLiteral (lit "1"); IntLiteral (lit "2")]) None) = Ok bs.
Proof.
  assert (Hnum : Forall (fun t => is_Some (StringToBigInt t))
    (intTexts (Prim (lit "Pair") (Some [IntLiteral (lit "1"); IntLiteral (lit "2")]) None)))
    by (repeat constructor; vm_compute; eauto).
  assert (Hdef : Forall (fun nm => primTag nm <> VUndefined)
       (primNames (Prim (lit "Pair")
                     (Some [IntLiteral (lit "1"); IntLiteral (lit "2")]) None)))
    by (repeat constructor; vm_compute; discriminate).
  split; [exact Hnum|]. split; [exact Hdef|].
  exact (proj2 (proj1 (X7_outcome _)) (conj Hnum Hdef)).
Defined.

(** ** The first byte *)

Lemma emitBinary_first_byte (e : Expr) (bs : list Z) :
  compactForm e -> emitBinary e = Ok bs ->
  exists rest, bs = shapeTag (shapeOf e) :: rest.
Proof.
  destruct e as [int|str|hex|items|name args annots]; cbn [compactForm shapeOf shapeTag];
    intros Hc Hemit.
  - rewrite emitBinary_IntLiteral in Hemit.
    destruct (BigInt int); cbn [bind] in Hemit; [|discriminate].
    injection Hemit as <-. eauto.
  - rewrite emitBinary_StringLiteral in Hemit. injection Hemit as <-. eauto.
  - rewrite emitBinary_BytesLiteral in Hemit. injection Hemit as <-. eauto.
  - rewrite emitBinary_Sequence in Hemit.
    destruct (emitList items); cbn [bind] in Hemit; [|discriminate].
    injection Hemit as <-. eauto.
  - rewrite emitBinary_Prim, primTagOf_compact in Hemit.
    assert (H0 : 0 <= argCount args) by (unfold argCount; destruct args; lia).
    assert (Hsmall : compactTag (argCount args) (annotated annots) mod 256
                     = Tag.Prim0 + 2 * argCount args
                       + (if annotated annots then 1 else 0)).
    { unfold compactTag, Tag.Prim0. apply Z.mod_small.
      destruct (annotated annots); lia. }
    rewrite Hsmall in Hemit.
    destruct (primTag name); [discriminate|..];
      (destruct (emitArgs args); cbn [bind] in Hemit; [|discriminate]);
      injection Hemit as <-; cbn [app]; eauto.
Qed.

(** X12.  The first byte tells the shape: for nodes that are not
    applications with three arguments or more, the first byte of the
    encoding is the tag of the enumeration for the node's shape (0 integer,
    1 string, 2 sequence, 10 bytes, 3 to 8 for an application according to
    its argument count and annotation), and two such nodes with the same
    first byte have the same shape. *)
Theorem X12_first_byte_shape (e1 e2 : Expr) (t : Z) (r1 r2 : list Z) :
  compactForm e1 -> compactForm e2 ->
  emitBinary e1 = Ok (t :: r1) ->
  emitBinary e2 = Ok (t :: r2) ->
  t = shapeTag (shapeOf e1) /\ shapeOf e1 = shapeOf e2.
Proof.
  intros C1 C2 E1 E2.
  destruct (emitBinary_first_byte e1 _ C1 E1) as (r1' & [= -> _]).
  destruct (emitBinary_first_byte e2 _ C2 E2) as (r2' & [= Ht _]).
  split; [reflexivity|].
  assert (Hn : forall e, compactForm e ->
                 match shapeOf e with ShPrim n _ => 0 <= n <= 2 | _ => True end).
  { intros [| | | |nm args an] Hc; cbn [shapeOf]; try exact I.
    cbn [compactForm] in Hc. unfold argCount in *. destruct args; lia. }
  pose proof (Hn e1 C1) as H1. pose proof (Hn e2 C2) as H2.
  destruct (shapeOf e1) as [| | | |n1 a1], (shapeOf e2) as [| | | |n2 a2];
    cbn [shapeTag] in Ht; unfold Tag.Int, Tag.String, Tag.Sequence, Tag.Bytes,
      Tag.Prim0 in Ht;
    try reflexivity;
    repeat match goal with
           | b : bool |- _ => destruct b
           end;
    try (exfalso; lia); f_equal; lia.
Qed.

Lemma X12_first_byte_shape_witness :
  compactForm (Prim (lit "Some") (Some [IntLiteral (lit "5")]) None)
  /\ compactForm (Prim (lit "Left") (Some [Sequence []]) (Some []))
  /\ emitBinary (Prim (lit "Some") (Some [IntLiteral (lit "5")]) None)
     = Ok [5; 9; 0; 5]
  /\ emitBinary (Prim (lit "Left") (Some [Sequence []]) (Some []))
     = Ok [5; 5; 2; 0; 0; 0; 0]
  /\ 5 = shapeTag (shapeOf (Prim (lit "Some") (Some [IntLiteral (lit "5")]) None))
  /\ shapeOf (Prim (lit "Some") (Some [IntLiteral (lit "5")]) None)
     = shapeOf (Prim (lit "Left") (Some [Sequence []]) (Some [])).
Proof.
  assert (C1 : compactForm (Prim (lit "Some") (Some [IntLiteral (lit "5")]) None))
    by (cbn; lia).
  assert (C2 : compactForm (Prim (lit "Left") (Some [Sequence []]) (Some [])))
    by (cbn; lia).
  assert (E1 : emitBinary (Prim (lit "Some") (Some [IntLiteral (lit "5")]) None)
               = Ok [5; 9; 0; 5]) by (vm_compute; reflexivity).
  assert (E2 : emitBinary (Prim (lit "Left") (Some [Sequence []]) (Some []))
               = Ok [5; 5; 2; 0; 0; 0; 0]) by (vm_compute; reflexivity).
  split; [exact C1|]. split; [exact C2|]. split; [exact E1|]. split; [exact E2|].
  exact (X12_first_byte_shape _ _ _ _ _ C1 C2 E1 E2).
Defined.

(** ** Byte strings of any text *)

Lemma parseInt16_single (a : N) :
  isHexDigit a = true -> band (parseInt16 [a]) (Num 0xff) = hexValue a.
Proof.
  intros Ha%isHexDigit_cases. cbn [In] in Ha.
  repeat (destruct Ha as [<-|Ha]; [vm_compute; reflexivity|]). contradiction.
Qed.

Lemma slices2_length (hex : jsstring) :
  length (slices2 hex) = ((length hex + 1) / 2)%nat.
Proof.
  induction hex as [|a|a b hex IH] using pair_ind; [reflexivity..|].
  cbn [slices2 length]. rewrite IH.
  replace (S (S (length hex)) + 1)%nat with (1 * 2 + (length hex + 1))%nat by lia.
  now rewrite Nat.div_add_l by lia.
Qed.

Lemma slices2_hex_digits (hex : jsstring) :
  forallb isHexDigit hex = true ->
  List.map (fun v => band v (Num 0xff)) (List.map parseInt16 (slices2 hex))
  = hexBytes hex
      ++ (if Nat.odd (length hex) then [hexValue (List.last hex 0%N)] else []).
Proof.
  induction hex as [|a|a b hex IH] using pair_ind; intros Hd.
  - reflexivity.
  - cbn [forallb] in Hd. apply andb_true_iff in Hd as [Ha _].
    cbn [slices2 List.map]. now rewrite parseInt16_single.
  - cbn [forallb] in Hd. apply andb_true_iff in Hd as [Ha Hd].
    apply andb_true_iff in Hd as [Hb Hd].
    rewrite hexBytes_cons2. cbn [slices2 List.map].
    rewrite parseInt16_pair, (IH Hd) by assumption.
    change (Nat.odd (length (a :: b :: hex))) with (Nat.odd (length hex)).
    destruct hex as [|c hex]; reflexivity.
Qed.

(** X6.  A text of hexadecimal digits of odd length is not rejected: its
    pairs of digits are decoded as for an even length, and the last digit,
    alone in its slice, becomes one more byte, the value of that digit;
    the length field counts it. *)
Theorem X6_bytes_odd_length (hex : jsstring) :
  forallb isHexDigit hex = true ->
  Nat.odd (length hex) = true ->
  Z.of_nat ((length hex + 1) / 2) < 2 ^ 32 ->
  exists len4 decoded,
    emitBinary (BytesLiteral hex)
    = Ok (10 :: len4 ++ decoded ++ [hexValue (List.last hex 0%N)])
    /\ length len4 = 4%nat /\ bytes len4
    /\ beValue len4 = Z.of_nat ((length hex + 1) / 2)
    /\ length decoded = (length hex / 2)%nat
    /\ forall k : nat,
         (k < length hex / 2)%nat ->
         decoded !! k
         = Some (16 * hexValue (nth (2 * k) hex 0%N)
                 + hexValue (nth (2 * k + 1) hex 0%N)).
Proof.
  intros Hd Hodd Hlen.
  exists (uint32be (Z.of_nat ((length hex + 1) / 2))), (hexBytes hex).
  rewrite emitBinary_BytesLiteral, slices2_hex_digits, slices2_length, Hodd
    by assumption.
  split; [reflexivity|]. split; [reflexivity|]. split; [apply uint32be_bytes|].
  split; [apply beValue_uint32be; lia|].
  unfold hexBytes. split; [now rewrite List.length_map, length_seq|].
  intros k Hk. rewrite list_lookup_fmap, lookup_seq_lt by assumption.
  reflexivity.
Qed.

Lemma X6_bytes_odd_length_witness :
  forallb isHexDigit (lit "abc") = true
  /\ Nat.odd (length (lit "abc")) = true
  /\ Z.of_nat ((length (lit "abc") + 1) / 2) < 2 ^ 32
  /\ exists len4 decoded,
       emitBinary (BytesLiteral (lit "abc"))
       = Ok (10 :: len4 ++ decoded ++ [hexValue (List.last (lit "abc") 0%N)])
       /\ length len4 = 4%nat /\ bytes len4
       /\ beValue len4 = Z.of_nat ((length (lit "abc") + 1) / 2)
       /\ length decoded = (length (lit "abc") / 2)%nat
       /\ forall k : nat,
            (k < length (lit "abc") / 2)%nat ->
            decoded !! k
            = Some (16 * hexValue (nth (2 * k) (lit "abc") 0%N)
                    + hexValue (nth (2 * k + 1) (lit "abc") 0%N)).
Proof.
  split; [reflexivity|]. split; [reflexivity|]. split; [reflexivity|].
  exact (X6_bytes_odd_length (lit "abc") eq_refl eq_refl eq_refl).
Defined.

Example emitBinary_odd_hex :
  emitBinary (BytesLiteral (lit "abc")) = Ok [0x0A; 0x00; 0x00; 0x00; 0x02; 0xAB; 0x0C].
Proof. vm_compute. reflexivity. Qed.







